(** * Tilesheet Composer (scripts/combinesheets.py): shallow embedding

    The editor keeps a mutable RGBA canvas, a palette of tiles sliced from
    source sheets, and a drag state.  All pixel work is delegated to pygame:
    [Surface((w, h), SRCALPHA)], [Surface.blit], [Surface.fill] and
    [Surface.get_bounding_rect].  Those four library calls are modelled
    below on integer pixel grids; everything else follows the Python text
    of [TileSheet] and [Composer] line by line.

    Python exceptions are values of [Exception]; a call that may raise
    returns a [result].  The presentation layer (screen, font, clock,
    drawing) reads the state and never writes it, and is left out. *)

From stdpp Require Import base numbers option list.
From Stdlib Require Import ZArith Lia Bool.

Local Open Scope Z_scope.

(** ** Exceptions and the error monad *)

Inductive Exception : Type :=
| ZeroDivisionError
| IndexError
| TypeError
| AttributeError
| pygame_error.

Inductive result (A : Type) : Type :=
| Ok (a : A)
| Raise (e : Exception).
Arguments Ok {A} a.
Arguments Raise {A} e.

#[global] Instance result_ret : MRet result := λ A a, Ok a.
#[global] Instance result_bind : MBind result := λ A B f m,
  match m with
  | Ok a => f a
  | Raise e => Raise e
  end.

Definition is_Ok {A} (m : result A) : Prop := ∃ a, m = Ok a.

(** Python's [a // b] on ints: floor division, raising on a zero divisor.
    [Z.div] rounds towards minus infinity for either sign of [b]. *)
Definition floordiv (a b : Z) : result Z :=
  if b =? 0 then Raise ZeroDivisionError else Ok (a / b).

(** Python's [l[i]]: negative indices count from the end. *)
Definition getitem {A} (l : list A) (i : Z) : result A :=
  let j := if i <? 0 then i + Z.of_nat (length l) else i in
  if j <? 0 then Raise IndexError
  else match l !! Z.to_nat j with
       | Some a => Ok a
       | None => Raise IndexError
       end.

(** [for x in l: body] threading the loop state. *)
Fixpoint for_each {A S : Type} (l : list A) (body : A → S → result S) (st : S)
  : result S :=
  match l with
  | [] => Ok st
  | a :: l' => st' ← body a st; for_each l' body st'
  end.

(** Python's [range(n)]: empty when [n <= 0]. *)
Definition range (n : Z) : list Z := seqZ 0 n.

(** ** Pixels and pygame surfaces *)

Record Color : Type := RGBA { red : Z; green : Z; blue : Z; alpha : Z }.

Definition transparent : Color := RGBA 0 0 0 0.

(** An 8-bit channel value. *)
Definition channel_ok (v : Z) : Prop := 0 ≤ v ≤ 255.
Definition color_ok (p : Color) : Prop :=
  channel_ok (red p) ∧ channel_ok (green p) ∧ channel_ok (blue p) ∧
  channel_ok (alpha p).

Record Rect : Type := mkRect { rect_x : Z; rect_y : Z; rect_w : Z; rect_h : Z }.

Definition collidepoint (r : Rect) (x y : Z) : bool :=
  (rect_x r <=? x) && (x <? rect_x r + rect_w r) &&
  (rect_y r <=? y) && (y <? rect_y r + rect_h r).

(** A surface is its width and its rows of pixels, top row first; the
    height is the number of rows. *)
Record Surface : Type := mkSurface { surf_w : nat; surf_rows : list (list Color) }.

Definition get_width (s : Surface) : Z := Z.of_nat (surf_w s).
Definition get_height (s : Surface) : Z := Z.of_nat (length (surf_rows s)).
Definition get_size (s : Surface) : Z * Z := (get_width s, get_height s).

(** Every row has the declared width. *)
Definition surface_wf (s : Surface) : Prop :=
  Forall (λ row, length row = surf_w s) (surf_rows s).

Definition surface_colors_ok (s : Surface) : Prop :=
  Forall (Forall color_ok) (surf_rows s).

(** The pixel stored at [(x, y)], if the surface has one there. *)
Definition pixel_at (s : Surface) (x y : Z) : option Color :=
  if (0 <=? x) && (0 <=? y)
  then row ← surf_rows s !! Z.to_nat y; row !! Z.to_nat x
  else None.

(** Rewrite every stored pixel as a function of its coordinates. *)
Definition map_pixels (f : Z → Z → Color → Color) (s : Surface) : Surface :=
  mkSurface (surf_w s)
    (imap (λ y row, imap (λ x p, f (Z.of_nat x) (Z.of_nat y) p) row)
          (surf_rows s)).

(** [pygame.Surface((w, h), pygame.SRCALPHA)]: a fully transparent surface;
    pygame raises [pygame.error] ("Invalid resolution for Surface") on a
    negative size. *)
Definition blank (w h : nat) : Surface :=
  mkSurface w (replicate h (replicate w transparent)).

Definition Surface_new (w h : Z) : result Surface :=
  if (w <? 0) || (h <? 0) then Raise pygame_error
  else Ok (blank (Z.to_nat w) (Z.to_nat h)).

(** pygame's per-pixel-alpha blend of a source pixel over a destination
    pixel (surface.h, ALPHA_BLEND and ALPHA_BLEND_COMP):
<<
    if (dA) { dC = (((sC - dC) * sA + sC) >> 8) + dC;
              dA = sA + dA - ((sA * dA) / 255); }
    else    { dC = sC; dA = sA; }
>>
    on C ints, with an arithmetic right shift. *)
Definition ALPHA_BLEND_COMP (sC dC sA : Z) : Z :=
  Z.shiftr ((sC - dC) * sA + sC) 8 + dC.

Definition ALPHA_BLEND (s d : Color) : Color :=
  if alpha d =? 0 then s
  else RGBA (ALPHA_BLEND_COMP (red s) (red d) (alpha s))
            (ALPHA_BLEND_COMP (green s) (green d) (alpha s))
            (ALPHA_BLEND_COMP (blue s) (blue d) (alpha s))
            (alpha s + alpha d - Z.quot (alpha s * alpha d) 255).

(** [dst.blit(src, dest, area)] between two SRCALPHA surfaces, no special
    flags.  The destination pixel [(X, Y)] faces the source pixel
    [(X - dest.x + area.x, Y - dest.y + area.y)]; SDL clips the rectangle
    to both surfaces, so a pair is blended exactly when the source pixel
    lies in [area] and exists, and the destination pixel exists.  Without
    [area] the whole source is used. *)
Definition blit (dst src : Surface) (dest : Z * Z) (area : option Rect)
  : Surface :=
  map_pixels
    (λ X Y d,
       let u := X - dest.1 + from_option rect_x 0 area in
       let v := Y - dest.2 + from_option rect_y 0 area in
       if from_option (λ r, collidepoint r u v) true area
       then match pixel_at src u v with
            | Some s => ALPHA_BLEND s d
            | None => d
            end
       else d)
    dst.

(** [dst.fill(color, rect)]: every pixel of [rect] that lies on the surface
    is set to [color], alpha included (no blending). *)
Definition fill (dst : Surface) (color : Color) (r : Rect) : Surface :=
  map_pixels (λ X Y d, if collidepoint r X Y then color else d) dst.

(** [surf.get_bounding_rect()] with the default [min_alpha = 1]: the
    smallest rectangle holding every pixel whose alpha is at least 1, and
    the empty rectangle at the origin when there is none. *)
Definition visible_pixels (s : Surface) : list (Z * Z) :=
  concat
    (imap (λ y row,
             omap id
               (imap (λ x p, if 1 <=? alpha p
                             then Some (Z.of_nat x, Z.of_nat y) else None)
                     row))
          (surf_rows s)).

Definition get_bounding_rect (s : Surface) : Rect :=
  match visible_pixels s with
  | [] => mkRect 0 0 0 0
  | (x0, y0) :: rest =>
      let min_x := foldr Z.min x0 (fst <$> rest) in
      let max_x := foldr Z.max x0 (fst <$> rest) in
      let min_y := foldr Z.min y0 (snd <$> rest) in
      let max_y := foldr Z.max y0 (snd <$> rest) in
      mkRect min_x min_y (max_x - min_x + 1) (max_y - min_y + 1)
  end.

(** ** TileSheet *)

Record TileSheet : Type := mkTileSheet {
  ts_tile_size : Z;
  ts_surface : Surface;
  ts_width : Z;
  ts_height : Z;
  ts_cols : Z;
  ts_rows : Z;
  ts_tiles : list Surface
}.

(** [TileSheet._slice_tiles]: the two nested loops, appending one tile per
    iteration. *)
Definition _slice_tiles (surface : Surface) (tile_size rows cols : Z)
  : result (list Surface) :=
  for_each (range rows)
    (λ y tiles,
       for_each (range cols)
         (λ x tiles,
            let rect := mkRect (x * tile_size) (y * tile_size)
                               tile_size tile_size in
            tile_surf ← Surface_new tile_size tile_size;
            let tile_surf := blit tile_surf surface (0, 0) (Some rect) in
            Ok (tiles ++ [tile_surf]))
         tiles)
    [].

(** [TileSheet.__init__]; [loaded] is what
    [pygame.image.load(path).convert_alpha()] gave: the decoded image, or
    the exception it raised. *)
Definition TileSheet_init (loaded : result Surface) (tile_size : Z)
  : result TileSheet :=
  surface ← loaded;
  let '(width, height) := get_size surface in
  qc ← floordiv width tile_size;
  let cols := Z.max 1 qc in
  qr ← floordiv height tile_size;
  let rows := Z.max 1 qr in
  tiles ← _slice_tiles surface tile_size rows cols;
  Ok (mkTileSheet tile_size surface width height cols rows tiles).

(** ** Composer *)

Definition TILE_SIZE : Z := 16.
Definition PALETTE_COLS : Z := 8.
Definition PALETTE_THUMB : Z := 32.

(** pygame key codes. *)
Definition K_ESCAPE : Z := 27.
Definition K_1 : Z := 49.
Definition K_9 : Z := 57.
Definition K_a : Z := 97.
Definition K_o : Z := 111.
Definition K_q : Z := 113.
Definition K_s : Z := 115.
Definition K_x : Z := 120.
Definition K_z : Z := 122.

(** The fields of [Composer.__init__], without [screen], [clock] and
    [info_font]. *)
Record Composer : Type := mkComposer {
  tile_size : Z;
  base_sheet : option TileSheet;
  canvas_surface : option Surface;
  palette_sheets : list TileSheet;
  palette_index : Z;
  selected_tile : option Surface;
  canvas_selected_tile : option Surface;
  canvas_selected_orig : option (Z * Z);
  canvas_dragging : bool;
  canvas_drag_mouse : Z * Z;
  grid_visible : bool;
  palette_scroll : Z;
  running : bool;
  win_w : Z;
  win_h : Z
}.

Definition Composer_init : Composer :=
  mkComposer TILE_SIZE None None [] 0 None None None false (0, 0) true 0 true
             800 600.

(** Field assignments. *)
Definition set_base (c : Composer) (ts : TileSheet) (cv : Surface) : Composer :=
  mkComposer (tile_size c) (Some ts) (Some cv) (palette_sheets c)
    (palette_index c) (selected_tile c) (canvas_selected_tile c)
    (canvas_selected_orig c) (canvas_dragging c) (canvas_drag_mouse c)
    (grid_visible c) (palette_scroll c) (running c) (win_w c) (win_h c).

Definition set_canvas (c : Composer) (cv : Surface) : Composer :=
  mkComposer (tile_size c) (base_sheet c) (Some cv) (palette_sheets c)
    (palette_index c) (selected_tile c) (canvas_selected_tile c)
    (canvas_selected_orig c) (canvas_dragging c) (canvas_drag_mouse c)
    (grid_visible c) (palette_scroll c) (running c) (win_w c) (win_h c).

Definition set_palette (c : Composer) (sheets : list TileSheet) (idx : Z)
  : Composer :=
  mkComposer (tile_size c) (base_sheet c) (canvas_surface c) sheets
    idx (selected_tile c) (canvas_selected_tile c)
    (canvas_selected_orig c) (canvas_dragging c) (canvas_drag_mouse c)
    (grid_visible c) (palette_scroll c) (running c) (win_w c) (win_h c).

Definition set_selected_tile (c : Composer) (t : Surface) : Composer :=
  mkComposer (tile_size c) (base_sheet c) (canvas_surface c) (palette_sheets c)
    (palette_index c) (Some t) (canvas_selected_tile c)
    (canvas_selected_orig c) (canvas_dragging c) (canvas_drag_mouse c)
    (grid_visible c) (palette_scroll c) (running c) (win_w c) (win_h c).

Definition set_drag (c : Composer) (tile : option Surface)
    (orig : option (Z * Z)) (dragging : bool) (mouse : Z * Z) : Composer :=
  mkComposer (tile_size c) (base_sheet c) (canvas_surface c) (palette_sheets c)
    (palette_index c) (selected_tile c) tile orig dragging mouse
    (grid_visible c) (palette_scroll c) (running c) (win_w c) (win_h c).

Definition set_grid_visible (c : Composer) (b : bool) : Composer :=
  mkComposer (tile_size c) (base_sheet c) (canvas_surface c) (palette_sheets c)
    (palette_index c) (selected_tile c) (canvas_selected_tile c)
    (canvas_selected_orig c) (canvas_dragging c) (canvas_drag_mouse c)
    b (palette_scroll c) (running c) (win_w c) (win_h c).

Definition set_palette_scroll (c : Composer) (n : Z) : Composer :=
  mkComposer (tile_size c) (base_sheet c) (canvas_surface c) (palette_sheets c)
    (palette_index c) (selected_tile c) (canvas_selected_tile c)
    (canvas_selected_orig c) (canvas_dragging c) (canvas_drag_mouse c)
    (grid_visible c) n (running c) (win_w c) (win_h c).

Definition set_running (c : Composer) (b : bool) : Composer :=
  mkComposer (tile_size c) (base_sheet c) (canvas_surface c) (palette_sheets c)
    (palette_index c) (selected_tile c) (canvas_selected_tile c)
    (canvas_selected_orig c) (canvas_dragging c) (canvas_drag_mouse c)
    (grid_visible c) (palette_scroll c) b (win_w c) (win_h c).

Definition set_window (c : Composer) (w h : Z) : Composer :=
  mkComposer (tile_size c) (base_sheet c) (canvas_surface c) (palette_sheets c)
    (palette_index c) (selected_tile c) (canvas_selected_tile c)
    (canvas_selected_orig c) (canvas_dragging c) (canvas_drag_mouse c)
    (grid_visible c) (palette_scroll c) (running c) w h.

(** [self.canvas_surface.<method>(...)]: an attribute access on [None]
    raises. *)
Definition the_canvas (c : Composer) : result Surface :=
  match canvas_surface c with
  | Some cv => Ok cv
  | None => Raise AttributeError
  end.

(** A surface argument handed to pygame: [None] is refused. *)
Definition as_surface (o : option Surface) : result Surface :=
  match o with
  | Some s => Ok s
  | None => Raise TypeError
  end.

(** [Composer._resize_window_for_canvas] (the [set_mode] call only touches
    the screen). *)
Definition _resize_window_for_canvas (c : Composer) : Composer :=
  match canvas_surface c with
  | None => c
  | Some cv =>
      let '(canvas_w, canvas_h) := get_size cv in
      let palette_w := PALETTE_THUMB * PALETTE_COLS + 20 in
      let desired_w := canvas_w + palette_w in
      let desired_h := Z.max canvas_h 400 in
      set_window c desired_w desired_h
  end.

(** [Composer.open_base] as the [O] key calls it.  [answer] is the file
    dialog and the decoder together: [None] when the dialog was cancelled,
    otherwise what loading the chosen file gave.  An exception of the
    [TileSheet] constructor is caught and shown in a message box. *)
Definition open_base (c : Composer) (answer : option (result Surface))
  : result Composer :=
  match answer with
  | None => Ok c
  | Some loaded =>
      match TileSheet_init loaded (tile_size c) with
      | Raise _ => Ok c
      | Ok ts =>
          cv ← Surface_new (ts_width ts) (ts_height ts);
          let cv := blit cv (ts_surface ts) (0, 0) None in
          Ok (_resize_window_for_canvas (set_base c ts cv))
      end
  end.

(** [Composer.add_palette_sheet] as the [A] key calls it; one load result
    per chosen file, the empty list when the dialog was cancelled. *)
Definition add_palette_sheet (c : Composer) (answers : list (result Surface))
  : Composer :=
  match answers with
  | [] => c
  | _ =>
      let sheets :=
        foldl (λ sheets loaded,
                 match TileSheet_init loaded (tile_size c) with
                 | Ok ts => sheets ++ [ts]
                 | Raise _ => sheets
                 end)
              (palette_sheets c) answers in
      let idx :=
        if 0 <? Z.of_nat (length sheets)
        then Z.min (palette_index c) (Z.of_nat (length sheets) - 1)
        else palette_index c in
      _resize_window_for_canvas (set_palette c sheets idx)
  end.

(** The flattened palette: every sheet's tiles, in sheet order. *)
Definition palette_tiles (c : Composer) : list Surface :=
  foldl (λ tiles sheet, tiles ++ ts_tiles sheet) [] (palette_sheets c).

(** [Composer.select_tile_from_palette_coords]: the new state and the
    returned flag. *)
Definition select_tile_from_palette_coords (c : Composer) (mx my : Z)
  : Composer * bool :=
  match canvas_surface c with
  | None => (c, false)
  | Some cv =>
      let '(canvas_w, canvas_h) := get_size cv in
      let px := mx - canvas_w - 10 in
      let py := my - 10 in
      if (px <? 0) || (py <? 0) then (c, false)
      else
        let thumb := PALETTE_THUMB in
        let col := px / thumb in
        let row := py / thumb + palette_scroll c in
        let idx := row * PALETTE_COLS + col in
        let tiles := palette_tiles c in
        if (0 <=? idx) && (idx <? Z.of_nat (length tiles))
        then match tiles !! Z.to_nat idx with
             | Some t => (set_selected_tile c t, true)
             | None => (c, false)
             end
        else (c, false)
  end.

(** [Composer.get_canvas_cell_pos]. *)
Definition get_canvas_cell_pos (c : Composer) (mx my : Z)
  : result (option (Z * Z)) :=
  match canvas_surface c with
  | None => Ok None
  | Some cv =>
      if (mx <? 0) || (my <? 0) then Ok None
      else if (mx >=? get_width cv) || (my >=? get_height cv) then Ok None
      else
        qx ← floordiv mx (tile_size c);
        let tx := qx * tile_size c in
        qy ← floordiv my (tile_size c);
        let ty := qy * tile_size c in
        Ok (Some (tx, ty))
  end.

(** [Composer.get_tile_surface_from_canvas]. *)
Definition get_tile_surface_from_canvas (c : Composer) (tx ty : Z)
  : result Surface :=
  surf ← Surface_new (tile_size c) (tile_size c);
  cv ← as_surface (canvas_surface c);
  Ok (blit surf cv (0, 0)
        (Some (mkRect tx ty (tile_size c) (tile_size c)))).

(** [Composer.is_surface_nonempty]. *)
Definition is_surface_nonempty (surf : Surface) : bool :=
  let r := get_bounding_rect surf in
  (rect_w r >? 0) && (rect_h r >? 0).

(** [Composer.place_tile_on_canvas]. *)
Definition place_tile_on_canvas (c : Composer) (mx my : Z) : result Composer :=
  match canvas_surface c, selected_tile c with
  | Some cv, Some tile =>
      qx ← floordiv mx (tile_size c);
      let tx := qx * tile_size c in
      qy ← floordiv my (tile_size c);
      let ty := qy * tile_size c in
      if (tx <? 0) || (ty <? 0) then Ok c
      else if (tx >=? get_width cv) || (ty >=? get_height cv) then Ok c
      else Ok (set_canvas c (blit cv tile (tx, ty) None))
  | _, _ => Ok c
  end.

(** [Composer.save_canvas]: the surface handed to [pygame.image.save], if
    any; [out] tells whether the save dialog gave a path.  The composer is
    not modified. *)
Definition save_canvas (c : Composer) (out : bool) : option Surface :=
  match canvas_surface c with
  | None => None
  | Some cv => if out then Some cv else None
  end.

(** ** The event loop *)

Inductive Event : Type :=
| QUIT
| VIDEORESIZE (w h : Z)
| KEYDOWN (key : Z)
| MOUSEBUTTONDOWN (pos : Z * Z) (button : Z)
| MOUSEMOTION (pos : Z * Z)
| MOUSEBUTTONUP (pos : Z * Z) (button : Z)
| OTHER_EVENT.

(** What the outside world answers while one event is handled: the file
    dialogs with the decoder, and [pygame.mouse.get_pos()]. *)
Record World : Type := mkWorld {
  ask_open_file : option (result Surface);
  ask_open_files : list (result Surface);
  ask_save_file : bool;
  mouse_get_pos : Z * Z
}.

(** The number-key branch of [Composer.run]. *)
Definition switch_sheet (c : Composer) (key : Z) : result Composer :=
  let idx := key - K_1 in
  if idx <? Z.of_nat (length (palette_sheets c)) then
    let c := set_palette c (palette_sheets c) idx in
    match palette_sheets c with
    | [] => Ok c
    | _ =>
        sheet ← getitem (palette_sheets c) (palette_index c);
        tile ← getitem (ts_tiles sheet) 0;
        Ok (set_selected_tile c tile)
    end
  else Ok c.

(** The [K_x] branch: delete the tile under the mouse. *)
Definition erase_under_mouse (c : Composer) (pos : Z * Z) : result Composer :=
  let '(mx, my) := pos in
  cell ← get_canvas_cell_pos c mx my;
  match cell with
  | Some (tx, ty) =>
      cv ← the_canvas c;
      Ok (set_canvas c
            (fill cv (RGBA 0 0 0 0) (mkRect tx ty (tile_size c) (tile_size c))))
  | None => Ok c
  end.

(** The left-button [MOUSEBUTTONDOWN] branch. *)
Definition left_button_down (c : Composer) (pos : Z * Z) : result Composer :=
  let '(mx, my) := pos in
  if match canvas_surface c with
     | Some cv => mx >? get_width cv
     | None => false
     end
  then Ok (select_tile_from_palette_coords c mx my).1
  else
    cell ← get_canvas_cell_pos c mx my;
    match cell with
    | Some (tx, ty) =>
        tile_surf ← get_tile_surface_from_canvas c tx ty;
        if is_surface_nonempty tile_surf then
          let c := set_drag c (Some tile_surf) (Some (tx, ty)) true pos in
          cv ← the_canvas c;
          Ok (set_canvas c
                (fill cv (RGBA 0 0 0 0)
                      (mkRect tx ty (tile_size c) (tile_size c))))
        else place_tile_on_canvas c mx my
    | None => Ok c
    end.

(** The [MOUSEBUTTONUP] branch once [button == 1 and canvas_dragging]. *)
Definition drop_dragged_tile (c : Composer) (pos : Z * Z) : result Composer :=
  let '(mx, my) := pos in
  cell ← get_canvas_cell_pos c mx my;
  c ← match cell with
      | Some (tx, ty) =>
          cv ← the_canvas c;
          tile ← as_surface (canvas_selected_tile c);
          Ok (set_canvas c (blit cv tile (tx, ty) None))
      | None =>
          match canvas_selected_orig c with
          | None => Raise TypeError
          | Some (ox, oy) =>
              cv ← the_canvas c;
              tile ← as_surface (canvas_selected_tile c);
              Ok (set_canvas c (blit cv tile (ox, oy) None))
          end
      end;
  Ok (set_drag c None None false (canvas_drag_mouse c)).

(** [pygame.display.set_mode((w, h), pygame.RESIZABLE)] as far as the editor
    state goes: pygame refuses a negative size with [pygame.error] ("Cannot
    set negative sized display mode"); otherwise only the screen changes. *)
Definition display_set_mode (w h : Z) : result unit :=
  if (w <? 0) || (h <? 0) then Raise pygame_error else Ok tt.

(** One iteration of the [for event in pygame.event.get()] loop.  In the
    [VIDEORESIZE] branch the [set_mode] call is not guarded, so what it
    raises leaves the loop. *)
Definition handle_event (w : World) (c : Composer) (event : Event)
  : result Composer :=
  match event with
  | QUIT => Ok (set_running c false)
  | VIDEORESIZE ew eh =>
      let c := set_window c ew eh in
      _ ← display_set_mode (win_w c) (win_h c);
      Ok c
  | KEYDOWN key =>
      if key =? K_o then open_base c (ask_open_file w)
      else if key =? K_a then Ok (add_palette_sheet c (ask_open_files w))
      else if key =? K_s then Ok c
      else if key =? K_z then Ok (set_grid_visible c (negb (grid_visible c)))
      else if (key =? K_ESCAPE) || (key =? K_q) then Ok (set_running c false)
      else if (K_1 <=? key) && (key <=? K_9) then switch_sheet c key
      else if key =? K_x then erase_under_mouse c (mouse_get_pos w)
      else Ok c
  | MOUSEBUTTONDOWN pos button =>
      if button =? 1 then left_button_down c pos
      else if button =? 4
      then Ok (set_palette_scroll c (Z.max 0 (palette_scroll c - 1)))
      else if button =? 5
      then Ok (set_palette_scroll c (palette_scroll c + 1))
      else Ok c
  | MOUSEMOTION pos =>
      if canvas_dragging c
      then Ok (set_drag c (canvas_selected_tile c) (canvas_selected_orig c)
                 (canvas_dragging c) pos)
      else Ok c
  | MOUSEBUTTONUP pos button =>
      if (button =? 1) && canvas_dragging c then drop_dragged_tile c pos
      else Ok c
  | OTHER_EVENT => Ok c
  end.

(** A run of events handled in order, each with the world's answers at that
    moment.  [running] only stops the outer [while] loop between frames; the
    [for] loop itself handles every event it was given. *)
Fixpoint handle_events (c : Composer) (events : list (World * Event))
  : result Composer :=
  match events with
  | [] => Ok c
  | (w, ev) :: rest => c' ← handle_event w c ev; handle_events c' rest
  end.

(** The states the editor can be in. *)
Inductive reachable : Composer → Prop :=
| reachable_init : reachable Composer_init
| reachable_step c w ev c' :
    reachable c → handle_event w c ev = Ok c' → reachable c'.

(** ** Vocabulary of the statements *)

(** The pixel [(x, y)] lies on the surface. *)
Definition on_surface (s : Surface) (x y : Z) : Prop :=
  0 ≤ x < get_width s ∧ 0 ≤ y < get_height s.

(** The cell origin the code snaps a coordinate to:
    [x // tile_size * tile_size]. *)
Definition snap (t x : Z) : Z := x / t * t.

(** The pixel [(x, y)] lies in the [t x t] cell whose origin is
    [(tx, ty)]. *)
Definition in_cell (t tx ty x y : Z) : Prop :=
  tx ≤ x < tx + t ∧ ty ≤ y < ty + t.

(** The detached copy of a cell that [get_tile_surface_from_canvas]
    builds. *)
Definition cell_tile (cv : Surface) (t tx ty : Z) : Surface :=
  blit (blank (Z.to_nat t) (Z.to_nat t)) cv (0, 0) (Some (mkRect tx ty t t)).

(** Every pixel of the tile is either fully transparent or fully opaque. *)
Definition hard_edged (tile : Surface) : Prop :=
  Forall (Forall (λ p, alpha p = 0 ∨ alpha p = 255)) (surf_rows tile).

(** ** Sample images and sessions *)

Definition opaque_red : Color := RGBA 255 0 0 255.
Definition opaque_blue : Color := RGBA 0 0 255 255.
Definition half_red : Color := RGBA 255 0 0 128.

(** A [w x h] image of one colour. *)
Definition solid (w h : nat) (p : Color) : Surface :=
  mkSurface w (replicate h (replicate w p)).

(** A 32 x 16 image: the cell at [(0, 0)] filled with [p], the cell at
    [(16, 0)] filled with [q]. *)
Definition two_cells (p q : Color) : Surface :=
  mkSurface 32 (replicate 16 (replicate 16 p ++ replicate 16 q)).

Definition world_quiet : World := mkWorld None [] false (0, 0).
Definition world_open (img : Surface) : World :=
  mkWorld (Some (Ok img)) [] false (0, 0).
Definition world_add (img : Surface) : World :=
  mkWorld None [Ok img] false (0, 0).
Definition world_mouse (pos : Z * Z) : World := mkWorld None [] false pos.

(** Start the editor and open [base]. *)
Definition session_open (base : Surface) : result Composer :=
  handle_events Composer_init [(world_open base, KEYDOWN K_o)].

(** Start the editor, open [base], add [sheet] to the palette and press [1]
    to select its first tile. *)
Definition session_select (base sheet : Surface) : result Composer :=
  handle_events Composer_init
    [(world_open base, KEYDOWN K_o);
     (world_add sheet, KEYDOWN K_a);
     (world_quiet, KEYDOWN K_1)].

(** Start the editor, open [base] and press the left button at [pos]. *)
Definition session_press (base : Surface) (pos : Z * Z) : result Composer :=
  handle_events Composer_init
    [(world_open base, KEYDOWN K_o);
     (world_quiet, MOUSEBUTTONDOWN pos 1)].

(** Start the editor and add [sheet] to the palette. *)
Definition session_add (sheet : Surface) : result Composer :=
  handle_event (world_add sheet) Composer_init (KEYDOWN K_a).

(** Start the editor, add [sheet], then scroll the palette down twice. *)
Definition session_scrolled (sheet : Surface) : result Composer :=
  handle_events Composer_init
    [(world_add sheet, KEYDOWN K_a);
     (world_quiet, MOUSEBUTTONDOWN (300, 40) 5);
     (world_quiet, MOUSEBUTTONDOWN (300, 40) 5)].

(** The state a session ended in (the initial state if it raised). *)
Definition editor_of (r : result Composer) : Composer :=
  match r with
  | Ok c => c
  | Raise _ => Composer_init
  end.

(** ** Drawing the palette *)

(** The [self.screen.blit(thumb_s, (tx, ty))] calls of
    [Composer.draw_palette], in order: the tile each thumbnail is scaled
    from, and where it goes on the screen.  The background rectangle, the
    scaling and the identity-based highlight are left out. *)
Definition draw_palette_blits (c : Composer) : list (Surface * (Z * Z)) :=
  match palette_sheets c with
  | [] => []
  | _ =>
      let '(canvas_w, canvas_h) :=
        match canvas_surface c with
        | Some cv => get_size cv
        | None => (0, 0)
        end in
      let x0 := canvas_w + 10 in
      let y0 := 10 in
      let thumb := PALETTE_THUMB in
      omap id
        (imap (λ i t,
                 let i := Z.of_nat i in
                 let col := i `mod` PALETTE_COLS in
                 let row := i / PALETTE_COLS - palette_scroll c in
                 if row <? 0 then None
                 else
                   let tx := x0 + col * thumb in
                   let ty := y0 + row * thumb in
                   Some (t, (tx, ty)))
              (palette_tiles c))
  end.

(** ** Invariants of the editor *)

(** The drag fields agree with each other: while dragging there is a canvas,
    a held tile and an origin; otherwise nothing is held. *)
Definition drag_state_ok (c : Composer) : Prop :=
  if canvas_dragging c
  then is_Some (canvas_surface c) ∧ is_Some (canvas_selected_tile c)
       ∧ is_Some (canvas_selected_orig c)
  else canvas_selected_tile c = None ∧ canvas_selected_orig c = None.

(** [palette_index] names a loaded sheet (or is 0 when there is none yet). *)
Definition palette_index_ok (c : Composer) : Prop :=
  0 ≤ palette_index c
  ∧ (palette_sheets c ≠ [] →
     palette_index c < Z.of_nat (length (palette_sheets c))).

(** The ways one event can change the editor.  Every write to the canvas is
    a [blit] or a [fill], hence a [map_pixels]. *)
Inductive event_effect (w : World) (c : Composer) : Event → Composer → Prop :=
| effect_none ev : event_effect w c ev c
| effect_running ev b : event_effect w c ev (set_running c b)
| effect_window ev ww wh : event_effect w c ev (set_window c ww wh)
| effect_grid ev b : event_effect w c ev (set_grid_visible c b)
| effect_scroll_up ev :
    event_effect w c ev
      (set_palette_scroll c (Z.max 0 (palette_scroll c - 1)))
| effect_scroll_down ev :
    event_effect w c ev (set_palette_scroll c (palette_scroll c + 1))
| effect_select ev tile : event_effect w c ev (set_selected_tile c tile)
| effect_switch ev idx tile :
    0 ≤ idx < Z.of_nat (length (palette_sheets c)) →
    event_effect w c ev
      (set_selected_tile (set_palette c (palette_sheets c) idx) tile)
| effect_paint ev cv f :
    canvas_surface c = Some cv →
    event_effect w c ev (set_canvas c (map_pixels f cv))
| effect_lift ev cv f tile orig pos :
    canvas_surface c = Some cv →
    event_effect w c ev
      (set_canvas (set_drag c (Some tile) (Some orig) true pos)
         (map_pixels f cv))
| effect_motion ev pos :
    canvas_dragging c = true →
    event_effect w c ev
      (set_drag c (canvas_selected_tile c) (canvas_selected_orig c)
         (canvas_dragging c) pos)
| effect_drop ev cv f :
    canvas_surface c = Some cv →
    event_effect w c ev
      (set_drag (set_canvas c (map_pixels f cv)) None None false
         (canvas_drag_mouse c))
| effect_add ev : event_effect w c ev (add_palette_sheet c (ask_open_files w))
| effect_open ts :
    0 ≤ ts_width ts → 0 ≤ ts_height ts →
    event_effect w c (KEYDOWN K_o)
      (_resize_window_for_canvas
         (set_base c ts
            (blit (blank (Z.to_nat (ts_width ts)) (Z.to_nat (ts_height ts)))
                  (ts_surface ts) (0, 0) None))).

(** * Properties *)

(** ** The error monad and Python arithmetic *)

(** Case analysis on a hypothesis about a monadic computation. *)
Ltac result_cases H :=
  repeat first
    [ discriminate H
    | progress (cbn [mbind result_bind mret result_ret] in H)
    | match type of H with
      | @mbind _ _ _ _ _ ?m = _ => destruct m eqn:?
      | context [match ?x with _ => _ end] => destruct x eqn:?
      end ].

Lemma floordiv_pos (a b : Z) : 0 < b → floordiv a b = Ok (a / b).
Proof.
  intros Hb. unfold floordiv.
  destruct (Z.eqb_spec b 0) as [->|_]; [lia | reflexivity].
Qed.

Lemma for_each_app {A S : Type} (l1 l2 : list A) (body : A → S → result S) st :
  for_each (l1 ++ l2) body st = st' ← for_each l1 body st; for_each l2 body st'.
Proof.
  revert st. induction l1 as [|a l1 IH]; intros st; simpl; [reflexivity|].
  destruct (body a st) as [st'|e]; simpl; [apply IH | reflexivity].
Qed.

(** ** Surfaces as pixel grids *)

Lemma pixel_at_Some_nat (s : Surface) (x y : Z) (p : Color) :
  pixel_at s x y = Some p ↔
  0 ≤ x ∧ 0 ≤ y ∧
  ∃ row, surf_rows s !! Z.to_nat y = Some row ∧ row !! Z.to_nat x = Some p.
Proof.
  unfold pixel_at.
  destruct (Z.leb_spec 0 x), (Z.leb_spec 0 y); simpl;
    try (split; [discriminate | intros (? & ? & _); lia]).
  destruct (surf_rows s !! Z.to_nat y) as [row|]; simpl.
  - split; [intros H1; repeat split; eauto |].
    intros (_ & _ & row' & [= <-] & H1). exact H1.
  - split; [discriminate | intros (_ & _ & row' & [=] & _)].
Qed.

Lemma pixel_at_of_nat (s : Surface) (x y : nat) (row : list Color) :
  surf_rows s !! y = Some row →
  pixel_at s (Z.of_nat x) (Z.of_nat y) = row !! x.
Proof.
  intros Hrow. unfold pixel_at.
  destruct (Z.leb_spec 0 (Z.of_nat x)); [|lia].
  destruct (Z.leb_spec 0 (Z.of_nat y)); [|lia].
  simpl. rewrite !Nat2Z.id, Hrow. reflexivity.
Qed.

Lemma pixel_at_map_pixels f (s : Surface) (x y : Z) :
  pixel_at (map_pixels f s) x y = f x y <$> pixel_at s x y.
Proof.
  unfold pixel_at, map_pixels; simpl.
  destruct (Z.leb_spec 0 x), (Z.leb_spec 0 y); simpl; try reflexivity.
  rewrite list_lookup_imap.
  destruct (surf_rows s !! Z.to_nat y) as [row|]; simpl; [|reflexivity].
  rewrite list_lookup_imap, !Z2Nat.id by lia. reflexivity.
Qed.

Lemma map_pixels_ext_on f g (s : Surface) :
  (∀ x y p, pixel_at s x y = Some p → f x y p = g x y p) →
  map_pixels f s = map_pixels g s.
Proof.
  intros Hfg. unfold map_pixels. f_equal.
  apply list_eq; intros y. rewrite !list_lookup_imap.
  destruct (surf_rows s !! y) as [row|] eqn:Hrow; simpl; [|reflexivity].
  f_equal. apply list_eq; intros x. rewrite !list_lookup_imap.
  destruct (row !! x) as [p|] eqn:Hp; simpl; [|reflexivity].
  f_equal. apply Hfg. rewrite (pixel_at_of_nat s x y row Hrow). exact Hp.
Qed.

Lemma map_pixels_id (s : Surface) : map_pixels (λ _ _ p, p) s = s.
Proof.
  destruct s as [w rows]. unfold map_pixels; simpl. f_equal.
  apply list_eq; intros y. rewrite list_lookup_imap.
  destruct (rows !! y) as [row|]; simpl; [|reflexivity].
  f_equal. apply list_eq; intros x. rewrite list_lookup_imap.
  destruct (row !! x); reflexivity.
Qed.

Lemma map_pixels_id_on f (s : Surface) :
  (∀ x y p, pixel_at s x y = Some p → f x y p = p) → map_pixels f s = s.
Proof.
  intros Hf. rewrite <- (map_pixels_id s) at 2.
  apply map_pixels_ext_on. exact Hf.
Qed.

Lemma map_pixels_map_pixels f g (s : Surface) :
  map_pixels f (map_pixels g s) = map_pixels (λ x y p, f x y (g x y p)) s.
Proof.
  unfold map_pixels; simpl. f_equal.
  apply list_eq; intros y. rewrite !list_lookup_imap.
  destruct (surf_rows s !! y) as [row|]; simpl; [|reflexivity].
  f_equal. apply list_eq; intros x. rewrite !list_lookup_imap.
  destruct (row !! x); reflexivity.
Qed.

Lemma get_width_map_pixels f s : get_width (map_pixels f s) = get_width s.
Proof. reflexivity. Qed.

Lemma get_height_map_pixels f s : get_height (map_pixels f s) = get_height s.
Proof. unfold get_height, map_pixels; simpl. by rewrite length_imap. Qed.

Lemma surface_wf_map_pixels f s : surface_wf s → surface_wf (map_pixels f s).
Proof.
  unfold surface_wf, map_pixels; simpl. rewrite !Forall_lookup.
  intros Hwf y row. rewrite list_lookup_imap.
  destruct (surf_rows s !! y) as [row0|] eqn:Hrow; simpl; [|discriminate].
  intros [= <-]. rewrite length_imap. eauto.
Qed.

(** On a well-formed surface the stored pixels are those inside the
    [width x height] box. *)
Lemma pixel_at_is_Some (s : Surface) (x y : Z) :
  surface_wf s →
  is_Some (pixel_at s x y) ↔ (0 ≤ x < get_width s ∧ 0 ≤ y < get_height s).
Proof.
  intros Hwf. unfold is_Some. split.
  - intros [p Hp]. apply pixel_at_Some_nat in Hp as (Hx & Hy & row & Hrow & Hp).
    unfold surface_wf in Hwf. rewrite Forall_lookup in Hwf.
    pose proof (Hwf _ _ Hrow) as Hlen.
    apply lookup_lt_Some in Hrow, Hp. unfold get_width, get_height. lia.
  - unfold get_width, get_height. intros [Hx Hy].
    destruct (lookup_lt_is_Some_2 (surf_rows s) (Z.to_nat y)) as [row Hrow];
      [lia|].
    unfold surface_wf in Hwf. rewrite Forall_lookup in Hwf.
    pose proof (Hwf _ _ Hrow) as Hlen.
    destruct (lookup_lt_is_Some_2 row (Z.to_nat x)) as [p Hp]; [lia|].
    exists p. apply pixel_at_Some_nat.
    split; [lia|]. split; [lia|]. exists row. split; assumption.
Qed.

(** Two well-formed surfaces of one size with the same pixels are equal. *)
Lemma surface_eq (s1 s2 : Surface) :
  surface_wf s1 → surface_wf s2 →
  surf_w s1 = surf_w s2 →
  length (surf_rows s1) = length (surf_rows s2) →
  (∀ x y, pixel_at s1 x y = pixel_at s2 x y) →
  s1 = s2.
Proof.
  destruct s1 as [w1 rows1], s2 as [w2 rows2]. unfold surface_wf; simpl.
  rewrite !Forall_lookup. intros Hwf1 Hwf2 -> Hlen Hpx. f_equal.
  apply list_eq; intros y.
  destruct (rows1 !! y) as [row1|] eqn:H1.
  - destruct (lookup_lt_is_Some_2 rows2 y) as [row2 H2].
    { apply lookup_lt_Some in H1. lia. }
    rewrite H2. f_equal. apply list_eq; intros x.
    rewrite <- (pixel_at_of_nat (mkSurface w2 rows1) x y row1 H1).
    rewrite <- (pixel_at_of_nat (mkSurface w2 rows2) x y row2 H2).
    apply Hpx.
  - symmetry. apply lookup_ge_None. apply lookup_ge_None in H1. lia.
Qed.

(** A new surface is well formed, fully transparent, of the asked size. *)
Lemma Surface_new_Ok (w h : Z) :
  0 ≤ w → 0 ≤ h → Surface_new w h = Ok (blank (Z.to_nat w) (Z.to_nat h)).
Proof.
  intros Hw Hh. unfold Surface_new.
  destruct (Z.ltb_spec w 0); [lia|]. destruct (Z.ltb_spec h 0); [lia|].
  reflexivity.
Qed.

Lemma pixel_at_blank (w h : nat) (x y : Z) :
  pixel_at (blank w h) x y
  = if (0 <=? x) && (x <? Z.of_nat w) && (0 <=? y) && (y <? Z.of_nat h)
    then Some transparent else None.
Proof.
  unfold pixel_at, blank; simpl.
  destruct (Z.leb_spec 0 x), (Z.leb_spec 0 y); simpl;
    rewrite ?andb_false_r; try reflexivity.
  destruct (Z.ltb_spec y (Z.of_nat h)); simpl.
  - rewrite lookup_replicate_2 by lia. simpl.
    destruct (Z.ltb_spec x (Z.of_nat w)); simpl.
    + rewrite lookup_replicate_2 by lia. reflexivity.
    + apply lookup_ge_None. rewrite length_replicate. lia.
  - rewrite (proj2 (lookup_ge_None _ _)); [|rewrite length_replicate; lia].
    simpl. rewrite andb_false_r. reflexivity.
Qed.

Lemma surface_wf_blank (w h : nat) : surface_wf (blank w h).
Proof.
  unfold surface_wf, blank; simpl. apply Forall_replicate, length_replicate.
Qed.

(** ** Blending *)

Lemma ALPHA_BLEND_over_transparent (s d : Color) :
  alpha d = 0 → ALPHA_BLEND s d = s.
Proof. intros Hd. unfold ALPHA_BLEND. rewrite Hd. reflexivity. Qed.

(** ** Cells of the canvas *)

Lemma collidepoint_spec (t tx ty x y : Z) :
  collidepoint (mkRect tx ty t t) x y = true ↔ in_cell t tx ty x y.
Proof.
  unfold collidepoint, in_cell; simpl.
  rewrite !andb_true_iff, !Z.leb_le, !Z.ltb_lt. tauto.
Qed.

Lemma get_canvas_cell_pos_on (c : Composer) (cv : Surface) (mx my : Z) :
  0 < tile_size c → canvas_surface c = Some cv → on_surface cv mx my →
  get_canvas_cell_pos c mx my
  = Ok (Some (snap (tile_size c) mx, snap (tile_size c) my)).
Proof.
  intros Ht Hcv [Hx Hy]. unfold get_canvas_cell_pos. rewrite Hcv.
  destruct (Z.ltb_spec mx 0); [lia|]. destruct (Z.ltb_spec my 0); [lia|].
  simpl. destruct (Z.geb_spec mx (get_width cv)); [lia|].
  destruct (Z.geb_spec my (get_height cv)); [lia|].
  simpl. rewrite !floordiv_pos by assumption. reflexivity.
Qed.

Lemma get_canvas_cell_pos_off (c : Composer) (cv : Surface) (mx my : Z) :
  canvas_surface c = Some cv → ¬ on_surface cv mx my →
  get_canvas_cell_pos c mx my = Ok None.
Proof.
  intros Hcv Hoff. unfold get_canvas_cell_pos. rewrite Hcv.
  destruct (Z.ltb_spec mx 0); [reflexivity|].
  destruct (Z.ltb_spec my 0); [reflexivity|]. simpl.
  destruct (Z.geb_spec mx (get_width cv)); [reflexivity|].
  destruct (Z.geb_spec my (get_height cv)); [reflexivity|].
  exfalso. apply Hoff. unfold on_surface. lia.
Qed.

(** The snapped origin of a pixel of the canvas is a cell holding it. *)
Lemma snap_in_cell (t x : Z) : 0 < t → snap t x ≤ x < snap t x + t.
Proof.
  intros Ht. unfold snap.
  pose proof (Z.div_mod x t ltac:(lia)). pose proof (Z.mod_pos_bound x t Ht).
  lia.
Qed.

Lemma snap_nonneg (t x : Z) : 0 < t → 0 ≤ x → 0 ≤ snap t x.
Proof.
  intros Ht Hx. unfold snap. pose proof (Z.div_pos x t Hx Ht). nia.
Qed.

Lemma get_tile_surface_from_canvas_Ok (c : Composer) (cv : Surface) (tx ty : Z) :
  0 < tile_size c → canvas_surface c = Some cv →
  get_tile_surface_from_canvas c tx ty = Ok (cell_tile cv (tile_size c) tx ty).
Proof.
  intros Ht Hcv. unfold get_tile_surface_from_canvas.
  rewrite Surface_new_Ok by lia. simpl. rewrite Hcv. reflexivity.
Qed.

(** The copy of a cell holds the canvas pixels of the cell, and transparent
    pixels where the cell sticks out of the canvas. *)
Lemma pixel_at_cell_tile (cv : Surface) (t tx ty u v : Z) :
  0 < t →
  pixel_at (cell_tile cv t tx ty) u v
  = if (0 <=? u) && (u <? t) && (0 <=? v) && (v <? t)
    then Some (default transparent (pixel_at cv (u + tx) (v + ty)))
    else None.
Proof.
  intros Ht. unfold cell_tile, blit. rewrite pixel_at_map_pixels, pixel_at_blank.
  rewrite !Z2Nat.id by lia.
  destruct ((0 <=? u) && (u <? t) && (0 <=? v) && (v <? t)) eqn:Hin;
    [|reflexivity].
  rewrite !andb_true_iff, !Z.leb_le, !Z.ltb_lt in Hin. simpl.
  replace (u - 0 + tx) with (u + tx) by lia.
  replace (v - 0 + ty) with (v + ty) by lia.
  rewrite (proj2 (collidepoint_spec t tx ty (u + tx) (v + ty)))
    by (unfold in_cell; lia).
  destruct (pixel_at cv (u + tx) (v + ty)); reflexivity.
Qed.

(** Clearing a cell and blitting its copy back gives the canvas back. *)
Lemma restore_cell (cv : Surface) (t tx ty : Z) :
  0 < t →
  blit (fill cv (RGBA 0 0 0 0) (mkRect tx ty t t)) (cell_tile cv t tx ty)
       (tx, ty) None
  = cv.
Proof.
  intros Ht. unfold blit at 1, fill. rewrite map_pixels_map_pixels.
  apply map_pixels_id_on. intros x y p Hp. simpl.
  rewrite pixel_at_cell_tile by assumption.
  replace (x - tx + 0 + tx) with x by lia.
  replace (y - ty + 0 + ty) with y by lia. rewrite Hp. simpl.
  destruct (collidepoint (mkRect tx ty t t) x y) eqn:Hc.
  - apply collidepoint_spec in Hc. destruct Hc as [Hx Hy].
    destruct (Z.leb_spec 0 (x - tx + 0)); [|lia].
    destruct (Z.ltb_spec (x - tx + 0) t); [|lia].
    destruct (Z.leb_spec 0 (y - ty + 0)); [|lia].
    destruct (Z.ltb_spec (y - ty + 0) t); [|lia].
    reflexivity.
  - destruct ((0 <=? x - tx + 0) && (x - tx + 0 <? t) &&
              (0 <=? y - ty + 0) && (y - ty + 0 <? t)) eqn:Hin; [|reflexivity].
    rewrite !andb_true_iff, !Z.leb_le, !Z.ltb_lt in Hin.
    assert (collidepoint (mkRect tx ty t t) x y = true) as Hc'
      by (apply collidepoint_spec; unfold in_cell; lia).
    congruence.
Qed.

(** ** Dragging *)

Lemma on_surface_map_pixels f (s : Surface) (x y : Z) :
  on_surface (map_pixels f s) x y ↔ on_surface s x y.
Proof.
  unfold on_surface. rewrite get_width_map_pixels, get_height_map_pixels.
  tauto.
Qed.

(** Pointer moves only record the pointer position. *)
Lemma handle_events_motions (c : Composer) (moves : list (World * (Z * Z)))
    (rest : list (World * Event)) :
  ∃ m,
    handle_events c ((prod_map id MOUSEMOTION <$> moves) ++ rest)
    = handle_events
        (set_drag c (canvas_selected_tile c) (canvas_selected_orig c)
           (canvas_dragging c) m)
        rest.
Proof.
  revert c. induction moves as [|[w pos] moves IH]; intros c.
  - exists (canvas_drag_mouse c). destruct c; reflexivity.
  - simpl. destruct (canvas_dragging c) eqn:Hdrag; simpl.
    + destruct (IH (set_drag c (canvas_selected_tile c)
                      (canvas_selected_orig c) (canvas_dragging c) pos))
        as [m Hm].
      exists m. rewrite Hdrag in Hm. etrans; [exact Hm | reflexivity].
    + destruct (IH c) as [m Hm]. exists m. etrans; [exact Hm|].
      rewrite Hdrag. reflexivity.
Qed.

(** Pointer-down on a non-empty cell lifts the tile: the copy is held and the
    cell is cleared. *)
Lemma left_button_down_lifts (c : Composer) (cv : Surface) (mx my : Z) :
  0 < tile_size c → canvas_surface c = Some cv → on_surface cv mx my →
  is_surface_nonempty
    (cell_tile cv (tile_size c) (snap (tile_size c) mx) (snap (tile_size c) my))
  = true →
  left_button_down c (mx, my)
  = Ok (set_canvas
          (set_drag c
             (Some (cell_tile cv (tile_size c) (snap (tile_size c) mx)
                      (snap (tile_size c) my)))
             (Some (snap (tile_size c) mx, snap (tile_size c) my)) true
             (mx, my))
          (fill cv (RGBA 0 0 0 0)
             (mkRect (snap (tile_size c) mx) (snap (tile_size c) my)
                (tile_size c) (tile_size c)))).
Proof.
  intros Ht Hcv Hon Hne. unfold left_button_down. rewrite Hcv.
  destruct Hon as [Hx Hy]. destruct (Z.gtb_spec mx (get_width cv)); [lia|].
  rewrite (get_canvas_cell_pos_on c cv mx my Ht Hcv) by (split; assumption).
  simpl. rewrite (get_tile_surface_from_canvas_Ok c cv _ _ Ht Hcv). simpl.
  rewrite Hne. unfold the_canvas. simpl. rewrite Hcv. reflexivity.
Qed.

(** The code's own test for "the cell under the pointer is not empty". *)
Lemma nonempty_cell_test (c : Composer) (cv : Surface) (tx ty : Z) :
  0 < tile_size c → canvas_surface c = Some cv →
  (tile ← get_tile_surface_from_canvas c tx ty; Ok (is_surface_nonempty tile))
  = Ok true →
  is_surface_nonempty (cell_tile cv (tile_size c) tx ty) = true.
Proof.
  intros Ht Hcv. rewrite (get_tile_surface_from_canvas_Ok c cv _ _ Ht Hcv).
  simpl. congruence.
Qed.

(** C1. Drag integrity: pointer-down on a non-empty canvas cell, any number
    of pointer moves, then pointer-up outside the canvas, leaves the canvas
    surface exactly as it was before the sequence, and the editor idle. *)
Theorem drag_release_outside_reverts
    (c : Composer) (cv : Surface) (w0 wu : World) (mx my ux uy : Z)
    (moves : list (World * (Z * Z))) :
  0 < tile_size c →
  canvas_surface c = Some cv →
  on_surface cv mx my →
  (tile ← get_tile_surface_from_canvas c
            (snap (tile_size c) mx) (snap (tile_size c) my);
   Ok (is_surface_nonempty tile)) = Ok true →
  ¬ on_surface cv ux uy →
  ∃ c',
    handle_events c
      ((w0, MOUSEBUTTONDOWN (mx, my) 1)
         :: (prod_map id MOUSEMOTION <$> moves)
         ++ [(wu, MOUSEBUTTONUP (ux, uy) 1)])
    = Ok c'
    ∧ canvas_surface c' = Some cv
    ∧ canvas_dragging c' = false
    ∧ canvas_selected_tile c' = None.
Proof.
  intros Ht Hcv Hon Hne Hoff.
  apply (nonempty_cell_test c cv _ _ Ht Hcv) in Hne.
  cbn [handle_events handle_event]. change (1 =? 1) with true. cbv iota.
  rewrite (left_button_down_lifts c cv mx my Ht Hcv Hon Hne). simpl mbind.
  match goal with |- context [handle_events ?c1 _] =>
    destruct (handle_events_motions c1 moves [(wu, MOUSEBUTTONUP (ux, uy) 1)])
      as [m ->]
  end.
  cbn [handle_events handle_event canvas_dragging set_drag set_canvas].
  change (1 =? 1) with true. cbn [andb].
  unfold drop_dragged_tile.
  erewrite get_canvas_cell_pos_off; cycle 1.
  { reflexivity. }
  { intros Hon'. apply Hoff.
    exact (proj1 (on_surface_map_pixels _ _ _ _) Hon'). }
  cbn. rewrite restore_cell by assumption.
  eexists. split; [reflexivity|]. cbn. auto.
Qed.

(** ** Blending arithmetic *)

Lemma ALPHA_BLEND_COMP_opaque (sC dC : Z) :
  channel_ok dC → ALPHA_BLEND_COMP sC dC 255 = sC.
Proof.
  unfold channel_ok, ALPHA_BLEND_COMP. intros Hd.
  rewrite Z.shiftr_div_pow2 by lia. change (2 ^ 8) with 256.
  rewrite <- (Z.div_unique ((sC - dC) * 255 + sC) 256 (sC - dC) dC); lia.
Qed.

Lemma ALPHA_BLEND_COMP_clear (sC dC : Z) :
  channel_ok sC → ALPHA_BLEND_COMP sC dC 0 = dC.
Proof.
  unfold channel_ok, ALPHA_BLEND_COMP. intros Hs.
  rewrite Z.shiftr_div_pow2 by lia. change (2 ^ 8) with 256.
  rewrite Z.mul_0_r, Z.add_0_l, Z.div_small; lia.
Qed.

(** A fully opaque source pixel replaces the destination pixel. *)
Lemma ALPHA_BLEND_opaque (s d : Color) :
  color_ok d → alpha s = 255 → ALPHA_BLEND s d = s.
Proof.
  intros (Hr & Hg & Hb & Ha) Hs. unfold ALPHA_BLEND.
  destruct (Z.eqb_spec (alpha d) 0); [reflexivity|].
  rewrite Hs, !ALPHA_BLEND_COMP_opaque by assumption.
  rewrite Z.mul_comm, Z.quot_mul by lia.
  destruct s; simpl in *. f_equal. lia.
Qed.

(** A fully transparent source pixel leaves a visible destination pixel as
    it is. *)
Lemma ALPHA_BLEND_clear (s d : Color) :
  color_ok s → alpha s = 0 → alpha d ≠ 0 → ALPHA_BLEND s d = d.
Proof.
  intros (Hr & Hg & Hb & Ha) Hs Hd. unfold ALPHA_BLEND.
  destruct (Z.eqb_spec (alpha d) 0); [contradiction|].
  rewrite Hs, !ALPHA_BLEND_COMP_clear by assumption.
  destruct d; simpl in *. f_equal. rewrite Z.quot_0_l; lia.
Qed.

(** Blending a hard-edged pixel a second time changes nothing. *)
Lemma ALPHA_BLEND_twice (s d : Color) :
  color_ok s → color_ok d → alpha s = 0 ∨ alpha s = 255 →
  ALPHA_BLEND s (ALPHA_BLEND s d) = ALPHA_BLEND s d.
Proof.
  intros Hs Hd [Ha|Ha].
  - destruct (Z.eq_dec (alpha d) 0) as [Hd0|Hd0].
    + rewrite (ALPHA_BLEND_over_transparent s d Hd0).
      apply ALPHA_BLEND_over_transparent. exact Ha.
    + rewrite (ALPHA_BLEND_clear s d Hs Ha Hd0).
      apply ALPHA_BLEND_clear; assumption.
  - rewrite (ALPHA_BLEND_opaque s d Hd Ha).
    apply ALPHA_BLEND_opaque; assumption.
Qed.

(** ** Placing a tile *)

Lemma place_tile_on_canvas_Ok (c : Composer) (cv tile : Surface) (mx my : Z) :
  0 < tile_size c →
  canvas_surface c = Some cv → selected_tile c = Some tile →
  0 ≤ snap (tile_size c) mx < get_width cv →
  0 ≤ snap (tile_size c) my < get_height cv →
  place_tile_on_canvas c mx my
  = Ok (set_canvas c
          (blit cv tile (snap (tile_size c) mx, snap (tile_size c) my) None)).
Proof.
  intros Ht Hcv Hsel Hx Hy. unfold place_tile_on_canvas.
  rewrite Hcv, Hsel, !floordiv_pos by assumption. simpl. fold (snap (tile_size c) mx).
  fold (snap (tile_size c) my).
  destruct (Z.ltb_spec (snap (tile_size c) mx) 0); [lia|].
  destruct (Z.ltb_spec (snap (tile_size c) my) 0); [lia|]. simpl.
  destruct (Z.geb_spec (snap (tile_size c) mx) (get_width cv)); [lia|].
  destruct (Z.geb_spec (snap (tile_size c) my) (get_height cv)); [lia|].
  reflexivity.
Qed.

(** What a whole-surface blit does to one destination pixel. *)
Lemma pixel_at_blit (dst src : Surface) (dx dy x y : Z) :
  pixel_at (blit dst src (dx, dy) None) x y
  = (λ d, match pixel_at src (x - dx) (y - dy) with
          | Some s => ALPHA_BLEND s d
          | None => d
          end) <$> pixel_at dst x y.
Proof.
  unfold blit. rewrite pixel_at_map_pixels. simpl. rewrite !Z.add_0_r.
  reflexivity.
Qed.

Lemma pixel_at_fill (dst : Surface) (color : Color) (r : Rect) (x y : Z) :
  pixel_at (fill dst color r) x y
  = (λ d, if collidepoint r x y then color else d) <$> pixel_at dst x y.
Proof. unfold fill. apply pixel_at_map_pixels. Qed.

Lemma surface_colors_ok_pixel (s : Surface) (x y : Z) (p : Color) :
  surface_colors_ok s → pixel_at s x y = Some p → color_ok p.
Proof.
  unfold surface_colors_ok. rewrite Forall_lookup.
  intros Hok Hp. apply pixel_at_Some_nat in Hp as (_ & _ & row & Hrow & Hp).
  specialize (Hok _ _ Hrow). rewrite Forall_lookup in Hok. eauto.
Qed.

Lemma hard_edged_pixel (s : Surface) (x y : Z) (p : Color) :
  hard_edged s → pixel_at s x y = Some p → alpha p = 0 ∨ alpha p = 255.
Proof.
  unfold hard_edged. rewrite Forall_lookup.
  intros Hok Hp. apply pixel_at_Some_nat in Hp as (_ & _ & row & Hrow & Hp).
  specialize (Hok _ _ Hrow). rewrite Forall_lookup in Hok. eauto.
Qed.

(** C3, as the code has it.  Writing the selected tile into a valid cell
    blends it over the cell: every canvas pixel under the tile becomes
    [ALPHA_BLEND] of the tile pixel over the prior pixel, every other pixel
    keeps its value.  The tile pixel replaces the prior one, alpha included,
    where the prior pixel is fully transparent or the tile pixel is fully
    opaque. *)
Theorem place_tile_blends_into_cell
    (c : Composer) (cv tile : Surface) (mx my : Z) :
  0 < tile_size c →
  canvas_surface c = Some cv → selected_tile c = Some tile →
  0 ≤ snap (tile_size c) mx < get_width cv →
  0 ≤ snap (tile_size c) my < get_height cv →
  ∃ cv',
    place_tile_on_canvas c mx my = Ok (set_canvas c cv')
    ∧ get_size cv' = get_size cv
    ∧ ∀ x y d,
        pixel_at cv x y = Some d →
        match pixel_at tile (x - snap (tile_size c) mx)
                            (y - snap (tile_size c) my) with
        | Some s =>
            pixel_at cv' x y = Some (ALPHA_BLEND s d)
            ∧ (alpha d = 0 → pixel_at cv' x y = Some s)
            ∧ (color_ok d → alpha s = 255 → pixel_at cv' x y = Some s)
        | None => pixel_at cv' x y = Some d
        end.
Proof.
  intros Ht Hcv Hsel Hx Hy.
  exists (blit cv tile (snap (tile_size c) mx, snap (tile_size c) my) None).
  split; [apply place_tile_on_canvas_Ok; assumption|].
  split.
  { unfold get_size, blit.
    rewrite get_width_map_pixels, get_height_map_pixels. reflexivity. }
  intros x y d Hd. rewrite pixel_at_blit, Hd. simpl.
  destruct (pixel_at tile _ _) as [s|]; [|reflexivity].
  split; [reflexivity|]. split.
  - intros Ha. rewrite ALPHA_BLEND_over_transparent by assumption. reflexivity.
  - intros Hok Ha. rewrite ALPHA_BLEND_opaque by assumption. reflexivity.
Qed.

(** C4, as the code has it.  Placing a hard-edged tile (every pixel fully
    transparent or fully opaque) twice at the same cell gives the same
    editor state as placing it once. *)
Theorem place_hard_edged_tile_twice (c : Composer) (mx my : Z) :
  0 < tile_size c →
  (∀ cv, canvas_surface c = Some cv → surface_colors_ok cv) →
  (∀ tile, selected_tile c = Some tile →
           surface_colors_ok tile ∧ hard_edged tile) →
  ∃ c1,
    place_tile_on_canvas c mx my = Ok c1
    ∧ place_tile_on_canvas c1 mx my = Ok c1.
Proof.
  intros Ht Hcvok Htile. unfold place_tile_on_canvas at 1.
  destruct (canvas_surface c) as [cv|] eqn:Hcv.
  2: { exists c. split; [reflexivity|]. unfold place_tile_on_canvas.
       rewrite Hcv. reflexivity. }
  destruct (selected_tile c) as [tile|] eqn:Hsel.
  2: { exists c. split; [reflexivity|]. unfold place_tile_on_canvas.
       rewrite Hcv, Hsel. reflexivity. }
  rewrite !floordiv_pos by assumption. simpl.
  fold (snap (tile_size c) mx). fold (snap (tile_size c) my).
  set (tx := snap (tile_size c) mx). set (ty := snap (tile_size c) my).
  assert (∀ c0, place_tile_on_canvas c0 mx my = Ok c0 →
                ∃ c1, Ok c0 = Ok c1 ∧ place_tile_on_canvas c1 mx my = Ok c1)
    as Hskip by eauto.
  assert (place_tile_on_canvas c mx my
          = if (tx <? 0) || (ty <? 0) then Ok c
            else if (tx >=? get_width cv) || (ty >=? get_height cv) then Ok c
            else Ok (set_canvas c (blit cv tile (tx, ty) None))) as Hplace.
  { unfold place_tile_on_canvas.
    rewrite Hcv, Hsel, !floordiv_pos by assumption. reflexivity. }
  destruct ((tx <? 0) || (ty <? 0)) eqn:Hneg; [apply Hskip, Hplace|].
  destruct ((tx >=? get_width cv) || (ty >=? get_height cv)) eqn:Hbig;
    [apply Hskip, Hplace|].
  eexists. split; [reflexivity|].
  unfold place_tile_on_canvas. simpl. rewrite Hsel.
  rewrite !floordiv_pos by assumption. simpl.
  fold (snap (tile_size c) mx). fold (snap (tile_size c) my).
  fold tx. fold ty. rewrite Hneg. unfold blit at 1 2.
  rewrite get_width_map_pixels, get_height_map_pixels, Hbig.
  f_equal. unfold set_canvas; simpl. f_equal. f_equal.
  unfold blit. rewrite map_pixels_map_pixels.
  apply map_pixels_ext_on. intros x y d Hd. simpl.
  destruct (pixel_at tile (x - tx + 0) (y - ty + 0)) as [s|] eqn:Hs;
    [|reflexivity].
  destruct (Htile tile eq_refl) as [Hok Hhard].
  apply ALPHA_BLEND_twice.
  - eapply surface_colors_ok_pixel; eassumption.
  - eapply surface_colors_ok_pixel; [apply (Hcvok cv eq_refl) | eassumption].
  - eapply hard_edged_pixel; eassumption.
Qed.

Lemma surface_colors_ok_solid (w h : nat) (p : Color) :
  color_ok p → surface_colors_ok (solid w h p).
Proof.
  intros Hp. unfold surface_colors_ok, solid; simpl.
  apply Forall_replicate, Forall_replicate, Hp.
Qed.

Lemma hard_edged_solid (w h : nat) (p : Color) :
  alpha p = 0 ∨ alpha p = 255 → hard_edged (solid w h p).
Proof.
  intros Hp. unfold hard_edged, solid; simpl.
  apply Forall_replicate, Forall_replicate, Hp.
Qed.

Lemma color_ok_opaque_red : color_ok opaque_red.
Proof. unfold color_ok, channel_ok; simpl; lia. Qed.

Lemma color_ok_opaque_blue : color_ok opaque_blue.
Proof. unfold color_ok, channel_ok; simpl; lia. Qed.

(** C1 at a concrete session: a 32 x 16 base with a red left cell, picked up
    at (5, 5), moved twice, released at (100, 5). *)
Lemma drag_release_outside_reverts_witness :
  ∃ c',
    handle_events (editor_of (session_open (two_cells opaque_red transparent)))
      [(world_quiet, MOUSEBUTTONDOWN (5, 5) 1);
       (world_quiet, MOUSEMOTION (20, 5));
       (world_quiet, MOUSEMOTION (60, 40));
       (world_quiet, MOUSEBUTTONUP (100, 5) 1)]
    = Ok c'
    ∧ canvas_surface c' = Some (two_cells opaque_red transparent)
    ∧ canvas_dragging c' = false
    ∧ canvas_selected_tile c' = None.
Proof.
  apply (drag_release_outside_reverts
           (editor_of (session_open (two_cells opaque_red transparent)))
           (two_cells opaque_red transparent) world_quiet world_quiet
           5 5 100 5 [(world_quiet, (20, 5)); (world_quiet, (60, 40))]).
  - reflexivity.
  - vm_compute. reflexivity.
  - vm_compute. repeat split; (reflexivity || discriminate).
  - vm_compute. reflexivity.
  - vm_compute. intros [[_ H] _]. discriminate H.
Defined.

(** C3 refuted: a half-transparent red tile written over an opaque blue cell
    leaves a blend in the cell, not the tile's pixel. *)
Lemma place_tile_blends_counterexample :
  (c ← session_select (solid 16 16 opaque_blue) (solid 16 16 half_red);
   tile ← as_surface (selected_tile c);
   c' ← place_tile_on_canvas c 0 0;
   cv' ← the_canvas c';
   Ok (pixel_at tile 0 0, pixel_at cv' 0 0))
  = Ok (Some (RGBA 255 0 0 128), Some (RGBA 128 0 127 255))
  ∧ (c ← session_select (solid 16 16 opaque_blue) (solid 16 16 half_red);
     c' ← place_tile_on_canvas c 0 0;
     cv' ← the_canvas c';
     Ok (pixel_at cv' 0 0))
    ≠ (c ← session_select (solid 16 16 opaque_blue) (solid 16 16 half_red);
       tile ← as_surface (selected_tile c);
       Ok (pixel_at tile 0 0)).
Proof.
  split; [vm_compute; reflexivity|]. vm_compute. intros H. discriminate H.
Qed.

Lemma place_tile_blends_into_cell_witness :
  ∃ cv',
    place_tile_on_canvas
      (editor_of (session_select (solid 16 16 transparent)
                    (solid 16 16 half_red))) 5 5
    = Ok (set_canvas
            (editor_of (session_select (solid 16 16 transparent)
                          (solid 16 16 half_red))) cv')
    ∧ pixel_at cv' 3 3 = Some half_red.
Proof.
  destruct (place_tile_blends_into_cell
              (editor_of (session_select (solid 16 16 transparent)
                            (solid 16 16 half_red)))
              (solid 16 16 transparent) (solid 16 16 half_red) 5 5)
    as (cv' & Hplace & _ & Hpx).
  - reflexivity.
  - vm_compute. reflexivity.
  - vm_compute. reflexivity.
  - vm_compute. split; (reflexivity || discriminate).
  - vm_compute. split; (reflexivity || discriminate).
  - exists cv'. split; [exact Hplace|].
    specialize (Hpx 3 3 transparent eq_refl).
    change (pixel_at (solid 16 16 half_red)
              (3 - snap (tile_size
                           (editor_of
                              (session_select (solid 16 16 transparent)
                                 (solid 16 16 half_red)))) 5)
              (3 - snap (tile_size
                           (editor_of
                              (session_select (solid 16 16 transparent)
                                 (solid 16 16 half_red)))) 5))
      with (Some half_red) in Hpx.
    destruct Hpx as (_ & Hpx & _). apply Hpx. reflexivity.
Defined.

(** C4 refuted: the half-transparent red tile placed once over opaque blue
    gives (128, 0, 127, 255); placed a second time it gives
    (192, 0, 63, 255). *)
Lemma place_twice_counterexample :
  (c ← session_select (solid 16 16 opaque_blue) (solid 16 16 half_red);
   c1 ← place_tile_on_canvas c 0 0;
   c2 ← place_tile_on_canvas c1 0 0;
   cv1 ← the_canvas c1;
   cv2 ← the_canvas c2;
   Ok (pixel_at cv1 0 0, pixel_at cv2 0 0))
  = Ok (Some (RGBA 128 0 127 255), Some (RGBA 192 0 63 255))
  ∧ (c ← session_select (solid 16 16 opaque_blue) (solid 16 16 half_red);
     c1 ← place_tile_on_canvas c 0 0;
     c2 ← place_tile_on_canvas c1 0 0;
     Ok (canvas_surface c2))
    ≠ (c ← session_select (solid 16 16 opaque_blue) (solid 16 16 half_red);
       c1 ← place_tile_on_canvas c 0 0;
       Ok (canvas_surface c1)).
Proof.
  split; [vm_compute; reflexivity|]. vm_compute. intros H. discriminate H.
Qed.

Lemma place_hard_edged_tile_twice_witness :
  ∃ c1,
    place_tile_on_canvas
      (editor_of (session_select (solid 16 16 opaque_blue)
                    (solid 16 16 opaque_red))) 0 0
    = Ok c1
    ∧ place_tile_on_canvas c1 0 0 = Ok c1.
Proof.
  apply (place_hard_edged_tile_twice
           (editor_of (session_select (solid 16 16 opaque_blue)
                         (solid 16 16 opaque_red))) 0 0).
  - reflexivity.
  - intros cv Hcv. vm_compute in Hcv. injection Hcv as <-.
    apply (surface_colors_ok_solid 16 16 opaque_blue color_ok_opaque_blue).
  - intros tile Htile. vm_compute in Htile. injection Htile as <-. split.
    + apply (surface_colors_ok_solid 16 16 opaque_red color_ok_opaque_red).
    + apply (hard_edged_solid 16 16 opaque_red). right. reflexivity.
Defined.

(** ** Erasing *)

Lemma classic_on_surface (s : Surface) (x y : Z) :
  on_surface s x y ∨ ¬ on_surface s x y.
Proof. unfold on_surface. lia. Qed.

Lemma erase_under_mouse_on (c : Composer) (cv : Surface) (mx my : Z) :
  0 < tile_size c → canvas_surface c = Some cv → on_surface cv mx my →
  erase_under_mouse c (mx, my)
  = Ok (set_canvas c
          (fill cv (RGBA 0 0 0 0)
             (mkRect (snap (tile_size c) mx) (snap (tile_size c) my)
                (tile_size c) (tile_size c)))).
Proof.
  intros Ht Hcv Hon. unfold erase_under_mouse.
  rewrite (get_canvas_cell_pos_on c cv mx my Ht Hcv Hon). simpl.
  unfold the_canvas. rewrite Hcv. reflexivity.
Qed.

Lemma erase_under_mouse_off (c : Composer) (cv : Surface) (mx my : Z) :
  canvas_surface c = Some cv → ¬ on_surface cv mx my →
  erase_under_mouse c (mx, my) = Ok c.
Proof.
  intros Hcv Hoff. unfold erase_under_mouse.
  rewrite (get_canvas_cell_pos_off c cv mx my Hcv Hoff). reflexivity.
Qed.

(** C6 refuted: with the red tile of the left cell held, the erase key over
    the right cell clears that cell. *)
Lemma erase_while_dragging_counterexample :
  (c ← session_open (two_cells opaque_red opaque_blue);
   c1 ← handle_event world_quiet c (MOUSEBUTTONDOWN (5, 5) 1);
   c2 ← handle_event (world_mouse (20, 5)) c1 (KEYDOWN K_x);
   cv1 ← the_canvas c1;
   cv2 ← the_canvas c2;
   Ok (canvas_dragging c1, pixel_at cv1 20 5, pixel_at cv2 20 5))
  = Ok (true, Some opaque_blue, Some transparent)
  ∧ (c ← session_open (two_cells opaque_red opaque_blue);
     c1 ← handle_event world_quiet c (MOUSEBUTTONDOWN (5, 5) 1);
     c2 ← handle_event (world_mouse (20, 5)) c1 (KEYDOWN K_x);
     Ok (canvas_surface c2))
    ≠ (c ← session_open (two_cells opaque_red opaque_blue);
       c1 ← handle_event world_quiet c (MOUSEBUTTONDOWN (5, 5) 1);
       Ok (canvas_surface c1)).
Proof.
  split; [vm_compute; reflexivity|]. vm_compute. intros H. discriminate H.
Qed.

(** C6, as the code has it.  While a tile is held the erase key clears the
    cell under the pointer exactly as it does when idle: every pixel of that
    cell becomes fully transparent and every other pixel keeps its value;
    with the pointer off the canvas nothing changes.  The held tile, its
    origin and the dragging flag are not touched. *)
Theorem erase_key_while_dragging (w : World) (c : Composer) (cv : Surface) :
  canvas_dragging c = true →
  0 < tile_size c →
  canvas_surface c = Some cv →
  ∃ c' cv',
    handle_event w c (KEYDOWN K_x) = Ok c'
    ∧ canvas_surface c' = Some cv'
    ∧ canvas_dragging c' = true
    ∧ canvas_selected_tile c' = canvas_selected_tile c
    ∧ canvas_selected_orig c' = canvas_selected_orig c
    ∧ (¬ on_surface cv (mouse_get_pos w).1 (mouse_get_pos w).2 → c' = c)
    ∧ (on_surface cv (mouse_get_pos w).1 (mouse_get_pos w).2 →
       ∀ x y p,
         pixel_at cv x y = Some p →
         (in_cell (tile_size c)
            (snap (tile_size c) (mouse_get_pos w).1)
            (snap (tile_size c) (mouse_get_pos w).2) x y →
          pixel_at cv' x y = Some (RGBA 0 0 0 0))
         ∧ (¬ in_cell (tile_size c)
              (snap (tile_size c) (mouse_get_pos w).1)
              (snap (tile_size c) (mouse_get_pos w).2) x y →
            pixel_at cv' x y = Some p)).
Proof.
  intros Hdrag Ht Hcv. cbn [handle_event].
  change (K_x =? K_o) with false. change (K_x =? K_a) with false.
  change (K_x =? K_s) with false. change (K_x =? K_z) with false.
  change ((K_x =? K_ESCAPE) || (K_x =? K_q)) with false.
  change ((K_1 <=? K_x) && (K_x <=? K_9)) with false.
  change (K_x =? K_x) with true. cbv iota.
  destruct (mouse_get_pos w) as [mx my]. cbn [fst snd].
  destruct (classic_on_surface cv mx my) as [Hon|Hoff].
  - rewrite (erase_under_mouse_on c cv mx my Ht Hcv Hon).
    eexists _, _. split; [reflexivity|]. split; [reflexivity|].
    cbn [set_canvas canvas_dragging canvas_selected_tile canvas_selected_orig].
    split; [assumption|]. split; [reflexivity|]. split; [reflexivity|].
    split; [intros Hoff; contradiction|].
    intros _ x y p Hp. rewrite pixel_at_fill, Hp. simpl. split.
    + intros Hin.
      rewrite (proj2 (collidepoint_spec _ _ _ _ _) Hin). reflexivity.
    + intros Hout.
      destruct (collidepoint _ x y) eqn:Hc; [|reflexivity].
      apply collidepoint_spec in Hc. contradiction.
  - rewrite (erase_under_mouse_off c cv mx my Hcv Hoff).
    exists c, cv. repeat split; try assumption; try reflexivity;
      contradiction.
Qed.

Lemma erase_key_while_dragging_witness :
  ∃ c' cv',
    handle_event (world_mouse (20, 5))
      (editor_of (session_press (two_cells opaque_red opaque_blue) (5, 5)))
      (KEYDOWN K_x)
    = Ok c'
    ∧ canvas_surface c' = Some cv'
    ∧ canvas_dragging c' = true
    ∧ pixel_at cv' 20 5 = Some (RGBA 0 0 0 0).
Proof.
  destruct (erase_key_while_dragging (world_mouse (20, 5))
              (editor_of
                 (session_press (two_cells opaque_red opaque_blue) (5, 5)))
              (two_cells transparent opaque_blue))
    as (c' & cv' & Hev & Hcv' & Hdrag & _ & _ & _ & Hpx).
  - vm_compute. reflexivity.
  - reflexivity.
  - vm_compute. reflexivity.
  - exists c', cv'. split; [exact Hev|]. split; [exact Hcv'|].
    split; [exact Hdrag|].
    refine (proj1 (Hpx _ 20 5 opaque_blue eq_refl) _).
    + vm_compute. repeat split; (reflexivity || discriminate).
    + vm_compute. repeat split; (reflexivity || discriminate).
Defined.

(** ** Dropping on a cell *)

(** A pixel lies in one aligned cell only. *)
Lemma snap_unique (t a x : Z) :
  0 < t → snap t a ≤ x < snap t a + t → snap t x = snap t a.
Proof.
  intros Ht Hx. unfold snap in *. f_equal.
  symmetry. apply (Z.div_unique x t (a / t) (x - a / t * t)); lia.
Qed.

Lemma in_cell_snap_unique (t ax ay bx by' x y : Z) :
  0 < t →
  in_cell t (snap t ax) (snap t ay) x y →
  in_cell t (snap t bx) (snap t by') x y →
  (snap t ax, snap t ay) = (snap t bx, snap t by').
Proof.
  intros Ht [Hax Hay] [Hbx Hby].
  rewrite <- (snap_unique t ax x Ht Hax), <- (snap_unique t ay y Ht Hay).
  rewrite (snap_unique t bx x Ht Hbx), (snap_unique t by' y Ht Hby).
  reflexivity.
Qed.

(** Pointer-up over a cell while a tile is held blits the tile there. *)
Lemma drop_dragged_tile_on (c : Composer) (cv tile : Surface) (ux uy : Z) :
  0 < tile_size c → canvas_surface c = Some cv →
  canvas_selected_tile c = Some tile → on_surface cv ux uy →
  drop_dragged_tile c (ux, uy)
  = Ok (set_drag
          (set_canvas c
             (blit cv tile (snap (tile_size c) ux, snap (tile_size c) uy)
                None))
          None None false (canvas_drag_mouse c)).
Proof.
  intros Ht Hcv Htile Hon. unfold drop_dragged_tile.
  rewrite (get_canvas_cell_pos_on c cv ux uy Ht Hcv Hon). simpl.
  unfold the_canvas. rewrite Hcv. simpl. rewrite Htile. reflexivity.
Qed.

(** C2 refuted: a half-transparent red tile dragged from the left cell onto
    the opaque blue right cell leaves a blend there, not the tile. *)
Lemma drag_commit_counterexample :
  (c ← session_open (two_cells half_red opaque_blue);
   held ← get_tile_surface_from_canvas c 0 0;
   c' ← handle_events c
          [(world_quiet, MOUSEBUTTONDOWN (5, 5) 1);
           (world_quiet, MOUSEBUTTONUP (20, 5) 1)];
   now ← get_tile_surface_from_canvas c' 16 0;
   Ok (pixel_at held 0 0, pixel_at now 0 0))
  = Ok (Some (RGBA 255 0 0 128), Some (RGBA 128 0 127 255))
  ∧ (c ← session_open (two_cells half_red opaque_blue);
     c' ← handle_events c
            [(world_quiet, MOUSEBUTTONDOWN (5, 5) 1);
             (world_quiet, MOUSEBUTTONUP (20, 5) 1)];
     get_tile_surface_from_canvas c' 16 0)
    ≠ (c ← session_open (two_cells half_red opaque_blue);
       get_tile_surface_from_canvas c 0 0).
Proof.
  split; [vm_compute; reflexivity|]. vm_compute. intros H. discriminate H.
Qed.

(** C2, as the code has it.  Pointer-down on a non-empty cell A, any pointer
    moves, then pointer-up over a cell B: for A = B the canvas is restored
    unchanged; for A ≠ B every pixel of A is fully transparent, every pixel
    of B is [ALPHA_BLEND] of the lifted tile's pixel over B's prior pixel
    (the lifted pixel itself, alpha included, where B's prior pixel was
    fully transparent or the lifted pixel is fully opaque), and every other
    pixel keeps its value. *)
Theorem drag_drop_on_cell
    (c : Composer) (cv : Surface) (w0 wu : World) (mx my ux uy : Z)
    (moves : list (World * (Z * Z))) :
  0 < tile_size c →
  canvas_surface c = Some cv →
  on_surface cv mx my →
  (tile ← get_tile_surface_from_canvas c
            (snap (tile_size c) mx) (snap (tile_size c) my);
   Ok (is_surface_nonempty tile)) = Ok true →
  on_surface cv ux uy →
  ∃ c' cv' held,
    handle_events c
      ((w0, MOUSEBUTTONDOWN (mx, my) 1)
         :: (prod_map id MOUSEMOTION <$> moves)
         ++ [(wu, MOUSEBUTTONUP (ux, uy) 1)])
    = Ok c'
    ∧ canvas_surface c' = Some cv'
    ∧ canvas_dragging c' = false
    ∧ get_tile_surface_from_canvas c
        (snap (tile_size c) mx) (snap (tile_size c) my) = Ok held
    ∧ ((snap (tile_size c) mx, snap (tile_size c) my)
       = (snap (tile_size c) ux, snap (tile_size c) uy) → cv' = cv)
    ∧ ((snap (tile_size c) mx, snap (tile_size c) my)
       ≠ (snap (tile_size c) ux, snap (tile_size c) uy) →
       ∀ x y p,
         pixel_at cv x y = Some p →
         (in_cell (tile_size c)
            (snap (tile_size c) mx) (snap (tile_size c) my) x y →
          pixel_at cv' x y = Some (RGBA 0 0 0 0))
         ∧ (in_cell (tile_size c)
              (snap (tile_size c) ux) (snap (tile_size c) uy) x y →
            ∃ s,
              pixel_at held (x - snap (tile_size c) ux)
                            (y - snap (tile_size c) uy) = Some s
              ∧ pixel_at cv' x y = Some (ALPHA_BLEND s p)
              ∧ (alpha p = 0 → pixel_at cv' x y = Some s)
              ∧ (color_ok p → alpha s = 255 → pixel_at cv' x y = Some s))
         ∧ (¬ in_cell (tile_size c)
                (snap (tile_size c) mx) (snap (tile_size c) my) x y →
            ¬ in_cell (tile_size c)
                (snap (tile_size c) ux) (snap (tile_size c) uy) x y →
            pixel_at cv' x y = Some p)).
Proof.
  intros Ht Hcv Hon Hne Hup.
  apply (nonempty_cell_test c cv _ _ Ht Hcv) in Hne.
  set (t := tile_size c) in *.
  set (ax := snap t mx) in *. set (ay := snap t my) in *.
  set (bx := snap t ux). set (by' := snap t uy).
  cbn [handle_events handle_event]. change (1 =? 1) with true. cbv iota.
  rewrite (left_button_down_lifts c cv mx my Ht Hcv Hon Hne). simpl mbind.
  match goal with |- context [handle_events ?c1 _] =>
    destruct (handle_events_motions c1 moves [(wu, MOUSEBUTTONUP (ux, uy) 1)])
      as [m Hm]
  end.
  setoid_rewrite Hm. clear Hm.
  cbn [handle_events handle_event canvas_dragging set_drag set_canvas].
  change (1 =? 1) with true. cbn [andb].
  erewrite drop_dragged_tile_on; cycle 1.
  { exact Ht. } { reflexivity. } { reflexivity. }
  { exact (proj2 (on_surface_map_pixels _ _ _ _) Hup). }
  cbn. fold t ax ay bx by'.
  eexists _, _, (cell_tile cv t ax ay).
  split; [reflexivity|]. split; [reflexivity|]. split; [reflexivity|].
  split; [apply get_tile_surface_from_canvas_Ok; assumption|].
  split.
  { intros [= <- <-]. apply restore_cell. exact Ht. }
  intros Hneq x y p Hp.
  rewrite pixel_at_blit, pixel_at_fill, Hp. simpl.
  rewrite pixel_at_cell_tile by exact Ht.
  assert (((0 <=? x - bx) && (x - bx <? t) && (0 <=? y - by') && (y - by' <? t))
          = true ↔ in_cell t bx by' x y) as Hinb.
  { unfold in_cell. rewrite !andb_true_iff, !Z.leb_le, !Z.ltb_lt. lia. }
  split; [|split].
  - intros Hina.
    rewrite (proj2 (collidepoint_spec _ _ _ _ _) Hina).
    destruct ((0 <=? x - bx) && _ && _ && _) eqn:Hb; [|reflexivity].
    exfalso. apply Hneq.
    apply (in_cell_snap_unique t mx my ux uy x y Ht Hina).
    apply Hinb. reflexivity.
  - intros Hinbx. rewrite (proj2 Hinb Hinbx).
    destruct (collidepoint (mkRect ax ay t t) x y) eqn:Hc.
    { exfalso. apply Hneq. apply collidepoint_spec in Hc.
      apply (in_cell_snap_unique t mx my ux uy x y Ht Hc Hinbx). }
    eexists. split; [reflexivity|]. split; [reflexivity|]. split.
    + intros Ha. rewrite ALPHA_BLEND_over_transparent by exact Ha.
      reflexivity.
    + intros Hok Ha. rewrite ALPHA_BLEND_opaque by assumption. reflexivity.
  - intros Hnota Hnotb.
    destruct (collidepoint (mkRect ax ay t t) x y) eqn:Hc.
    { apply collidepoint_spec in Hc. contradiction. }
    destruct ((0 <=? x - bx) && _ && _ && _) eqn:Hb; [|reflexivity].
    exfalso. apply Hnotb, Hinb. reflexivity.
Qed.

Lemma drag_drop_on_cell_witness :
  ∃ c' cv',
    handle_events (editor_of (session_open (two_cells opaque_red opaque_blue)))
      [(world_quiet, MOUSEBUTTONDOWN (5, 5) 1);
       (world_quiet, MOUSEMOTION (12, 7));
       (world_quiet, MOUSEBUTTONUP (20, 5) 1)]
    = Ok c'
    ∧ canvas_surface c' = Some cv'
    ∧ pixel_at cv' 5 5 = Some (RGBA 0 0 0 0)
    ∧ pixel_at cv' 20 5 = Some opaque_red.
Proof.
  destruct (drag_drop_on_cell
              (editor_of (session_open (two_cells opaque_red opaque_blue)))
              (two_cells opaque_red opaque_blue) world_quiet world_quiet
              5 5 20 5 [(world_quiet, (12, 7))])
    as (c' & cv' & held & Hev & Hcv' & _ & Hheld & _ & Hpx).
  - reflexivity.
  - vm_compute. reflexivity.
  - vm_compute. repeat split; (reflexivity || discriminate).
  - vm_compute. reflexivity.
  - vm_compute. repeat split; (reflexivity || discriminate).
  - assert ((snap 16 5, snap 16 5) ≠ (snap 16 20, snap 16 5)) as Hneq
      by (vm_compute; intros H; discriminate H).
    exists c', cv'. split; [exact Hev|]. split; [exact Hcv'|]. split.
    + refine (proj1 (Hpx Hneq 5 5 opaque_red eq_refl) _).
      vm_compute. repeat split; (reflexivity || discriminate).
    + destruct (proj1 (proj2 (Hpx Hneq 20 5 opaque_blue eq_refl)))
        as (s & Hs & _ & _ & Hopaque).
      { vm_compute. repeat split; (reflexivity || discriminate). }
      vm_compute in Hheld. injection Hheld as <-.
      vm_compute in Hs. injection Hs as <-.
      apply Hopaque; [apply color_ok_opaque_blue | reflexivity].
Defined.

(** ** Slicing a sheet *)

Lemma for_each_extend {A B : Type} (l : list A)
    (body : A → list B → result (list B)) (g : A → list B) :
  (∀ a acc, body a acc = Ok (acc ++ g a)) →
  ∀ acc, for_each l body acc = Ok (acc ++ mjoin (g <$> l)).
Proof.
  intros Hbody. induction l as [|a l IH]; intros acc; simpl.
  - rewrite app_nil_r. reflexivity.
  - rewrite Hbody. simpl. rewrite IH, app_assoc. reflexivity.
Qed.

Lemma for_each_snoc {A B : Type} (l : list A)
    (body : A → list B → result (list B)) (g : A → B) :
  (∀ a acc, body a acc = Ok (acc ++ [g a])) →
  ∀ acc, for_each l body acc = Ok (acc ++ (g <$> l)).
Proof.
  intros Hbody. induction l as [|a l IH]; intros acc; simpl.
  - rewrite app_nil_r. reflexivity.
  - rewrite Hbody. simpl. rewrite IH, <- app_assoc. reflexivity.
Qed.

(** The tiles of a sheet, row after row. *)
Lemma _slice_tiles_Ok (surface : Surface) (t rows cols : Z) :
  0 < t →
  _slice_tiles surface t rows cols
  = Ok (mjoin ((λ y, (λ x, cell_tile surface t (x * t) (y * t)) <$> range cols)
                 <$> range rows)).
Proof.
  intros Ht. unfold _slice_tiles.
  rewrite (for_each_extend (range rows) _
             (λ y, (λ x, cell_tile surface t (x * t) (y * t)) <$> range cols)).
  - reflexivity.
  - intros y acc. apply for_each_snoc. intros x acc'.
    rewrite Surface_new_Ok by lia. reflexivity.
Qed.

Lemma TileSheet_init_Ok (img : Surface) (t : Z) :
  0 < t →
  TileSheet_init (Ok img) t
  = Ok (mkTileSheet t img (get_width img) (get_height img)
          (Z.max 1 (get_width img / t)) (Z.max 1 (get_height img / t))
          (mjoin ((λ y, (λ x, cell_tile img t (x * t) (y * t))
                          <$> range (Z.max 1 (get_width img / t)))
                    <$> range (Z.max 1 (get_height img / t))))).
Proof.
  intros Ht. unfold TileSheet_init. simpl.
  rewrite !floordiv_pos by assumption. simpl.
  rewrite _slice_tiles_Ok by assumption. reflexivity.
Qed.

Lemma get_size_cell_tile (cv : Surface) (t tx ty : Z) :
  0 ≤ t → get_size (cell_tile cv t tx ty) = (t, t).
Proof.
  intros Ht. unfold get_size, cell_tile, blit.
  rewrite get_width_map_pixels, get_height_map_pixels.
  unfold get_width, get_height, blank; simpl.
  rewrite length_replicate, Z2Nat.id by lia. reflexivity.
Qed.

Lemma grid_length {B : Type} (g : Z → Z → B) (rows cols : Z) :
  0 ≤ rows → 0 ≤ cols →
  Z.of_nat (length (mjoin ((λ y, g y <$> range cols) <$> range rows)))
  = rows * cols.
Proof.
  intros Hr Hc. rewrite length_join, <- list_fmap_compose.
  rewrite (sum_list_fmap_same (Z.to_nat cols)).
  - unfold range. rewrite length_seqZ. nia.
  - apply Forall_forall. intros y _. simpl. unfold range.
    rewrite length_fmap, length_seqZ. reflexivity.
Qed.

Lemma grid_lookup {B : Type} (g : Z → Z → B) (rows cols row col : Z) :
  0 ≤ row < rows → 0 ≤ col < cols →
  mjoin ((λ y, g y <$> range cols) <$> range rows)
    !! Z.to_nat (row * cols + col)
  = Some (g row col).
Proof.
  intros Hr Hc.
  replace (Z.to_nat (row * cols + col))
    with (Z.to_nat row * Z.to_nat cols + Z.to_nat col)%nat by nia.
  apply (join_lookup_Some_same_length' (Z.to_nat cols)).
  - apply Forall_fmap, Forall_forall. intros y _. simpl. unfold range.
    rewrite length_fmap, length_seqZ. reflexivity.
  - lia.
  - exists (g row <$> range cols). unfold range. split.
    + rewrite list_lookup_fmap, lookup_seqZ_lt by lia. simpl.
      rewrite Z2Nat.id by lia. reflexivity.
    + rewrite list_lookup_fmap, lookup_seqZ_lt by lia. simpl.
      rewrite Z2Nat.id by lia. reflexivity.
Qed.

(** C7. For a [W x H] image and a tile size [t > 0] the constructor
    succeeds; [rows = max(1, H // t)], [cols = max(1, W // t)]; there are
    exactly [rows * cols] tiles; the tile of grid position [(row, col)] is
    number [row * cols + col] (row-major), is [t x t], and holds the image
    pixels from origin [(col * t, row * t)], transparent where the image
    ends. *)
Theorem slice_tiles_row_major (img : Surface) (t : Z) :
  0 < t →
  ∃ sheet,
    TileSheet_init (Ok img) t = Ok sheet
    ∧ ts_rows sheet = Z.max 1 (get_height img / t)
    ∧ ts_cols sheet = Z.max 1 (get_width img / t)
    ∧ Z.of_nat (length (ts_tiles sheet))
      = Z.max 1 (get_height img / t) * Z.max 1 (get_width img / t)
    ∧ ∀ row col,
        0 ≤ row < ts_rows sheet → 0 ≤ col < ts_cols sheet →
        ∃ tile,
          ts_tiles sheet !! Z.to_nat (row * ts_cols sheet + col) = Some tile
          ∧ get_size tile = (t, t)
          ∧ ∀ u v,
              0 ≤ u < t → 0 ≤ v < t →
              pixel_at tile u v
              = Some (default transparent
                        (pixel_at img (col * t + u) (row * t + v))).
Proof.
  intros Ht. eexists. split; [apply TileSheet_init_Ok; exact Ht|].
  cbn [ts_rows ts_cols ts_tiles].
  split; [reflexivity|]. split; [reflexivity|]. split.
  - apply (grid_length (λ y x, cell_tile img t (x * t) (y * t))); lia.
  - intros row col Hrow Hcol.
    exists (cell_tile img t (col * t) (row * t)). split; [|split].
    + apply (grid_lookup (λ y x, cell_tile img t (x * t) (y * t)));
        assumption.
    + apply get_size_cell_tile. lia.
    + intros u v Hu Hv. rewrite pixel_at_cell_tile by exact Ht.
      destruct (Z.leb_spec 0 u); [|lia]. destruct (Z.ltb_spec u t); [|lia].
      destruct (Z.leb_spec 0 v); [|lia]. destruct (Z.ltb_spec v t); [|lia].
      simpl. rewrite (Z.add_comm u), (Z.add_comm v). reflexivity.
Qed.

Lemma slice_tiles_row_major_witness :
  ∃ sheet,
    TileSheet_init (Ok (two_cells opaque_red opaque_blue)) 16 = Ok sheet
    ∧ length (ts_tiles sheet) = 2%nat
    ∧ ∃ tile, ts_tiles sheet !! 1%nat = Some tile
              ∧ pixel_at tile 0 0 = Some opaque_blue.
Proof.
  destruct (slice_tiles_row_major (two_cells opaque_red opaque_blue) 16)
    as (sheet & Hinit & Hrows & Hcols & Hlen & Htile).
  - reflexivity.
  - exists sheet. split; [exact Hinit|]. split.
    + apply Nat2Z.inj. rewrite Hlen. reflexivity.
    + destruct (Htile 0 1) as (tile & Hlook & _ & Hpx).
      * rewrite Hrows. vm_compute. split; [discriminate | reflexivity].
      * rewrite Hcols. vm_compute. split; [discriminate | reflexivity].
      * exists tile. rewrite Hcols in Hlook. split; [exact Hlook|].
        apply (Hpx 0 0); vm_compute; split; (discriminate || reflexivity).
Defined.

(** ** Invalid tile sizes *)

Lemma TileSheet_init_zero (img : Surface) :
  TileSheet_init (Ok img) 0 = Raise ZeroDivisionError.
Proof. reflexivity. Qed.

Lemma range_cons (n : Z) : 1 ≤ n → range n = 0 :: seqZ 1 (Z.pred n).
Proof. intros Hn. unfold range. rewrite seqZ_cons by lia. reflexivity. Qed.

Lemma TileSheet_init_negative (img : Surface) (t : Z) :
  t < 0 → TileSheet_init (Ok img) t = Raise pygame_error.
Proof.
  intros Ht. unfold TileSheet_init, floordiv. simpl.
  destruct (Z.eqb_spec t 0); [lia|]. simpl.
  unfold _slice_tiles.
  rewrite (range_cons (Z.max 1 (get_height img / t))) by lia.
  rewrite (range_cons (Z.max 1 (get_width img / t))) by lia.
  simpl. unfold Surface_new. destruct (Z.ltb_spec t 0); [|lia].
  reflexivity.
Qed.

Lemma TileSheet_init_invalid (loaded : result Surface) (t : Z) :
  t ≤ 0 → ∃ e, TileSheet_init loaded t = Raise e.
Proof.
  intros Ht. destruct loaded as [img|e]; [|exists e; reflexivity].
  destruct (Z.eq_dec t 0) as [->|Hne].
  - exists ZeroDivisionError. apply TileSheet_init_zero.
  - exists pygame_error. apply TileSheet_init_negative. lia.
Qed.

Lemma add_palette_sheet_invalid (c : Composer) (answers : list (result Surface)) :
  tile_size c ≤ 0 →
  foldl (λ sheets loaded,
           match TileSheet_init loaded (tile_size c) with
           | Ok ts => sheets ++ [ts]
           | Raise _ => sheets
           end)
        (palette_sheets c) answers
  = palette_sheets c.
Proof.
  intros Ht. generalize (palette_sheets c).
  induction answers as [|loaded answers IH]; intros sheets; simpl;
    [reflexivity|].
  destruct (TileSheet_init_invalid loaded (tile_size c) Ht) as [e ->].
  apply IH.
Qed.

(** C8. With a tile size [t <= 0] the constructor raises
    ([ZeroDivisionError] for 0, [pygame.error] for a negative size, both
    standing for the specification's InvalidTileSize); the callers catch it:
    [open_base] leaves the editor exactly as it was and [add_palette_sheet]
    leaves the canvas, the sheets, the selection and the drag state as they
    were. *)
Theorem invalid_tile_size_raises (loaded : result Surface) (t : Z) :
  t ≤ 0 →
  (∃ e, TileSheet_init loaded t = Raise e)
  ∧ (∀ img, loaded = Ok img →
            TileSheet_init loaded t
            = Raise (if t =? 0 then ZeroDivisionError else pygame_error))
  ∧ (∀ c, tile_size c = t → open_base c (Some loaded) = Ok c)
  ∧ (∀ c rest, tile_size c = t →
       let c' := add_palette_sheet c (loaded :: rest) in
       tile_size c' = tile_size c
       ∧ base_sheet c' = base_sheet c
       ∧ canvas_surface c' = canvas_surface c
       ∧ palette_sheets c' = palette_sheets c
       ∧ selected_tile c' = selected_tile c
       ∧ canvas_selected_tile c' = canvas_selected_tile c
       ∧ canvas_selected_orig c' = canvas_selected_orig c
       ∧ canvas_dragging c' = canvas_dragging c).
Proof.
  intros Ht. split; [apply TileSheet_init_invalid; exact Ht|].
  split; [|split].
  - intros img ->. destruct (Z.eqb_spec t 0) as [->|Hne].
    + apply TileSheet_init_zero.
    + apply TileSheet_init_negative. lia.
  - intros c <-. unfold open_base.
    destruct (TileSheet_init_invalid loaded (tile_size c) Ht) as [e ->].
    reflexivity.
  - intros c rest Hc. subst t. unfold add_palette_sheet.
    rewrite (add_palette_sheet_invalid c (loaded :: rest) Ht).
    unfold _resize_window_for_canvas. simpl.
    destruct (canvas_surface c) eqn:Hcv; simpl; rewrite ?Hcv; auto 10.
Qed.

Lemma invalid_tile_size_raises_witness :
  TileSheet_init (Ok (solid 16 16 opaque_red)) (-16) = Raise pygame_error
  ∧ TileSheet_init (Ok (solid 16 16 opaque_red)) 0 = Raise ZeroDivisionError.
Proof.
  split.
  - apply (proj1 (proj2 (invalid_tile_size_raises
                           (Ok (solid 16 16 opaque_red)) (-16) ltac:(lia)))
             (solid 16 16 opaque_red) eq_refl).
  - apply (proj1 (proj2 (invalid_tile_size_raises
                           (Ok (solid 16 16 opaque_red)) 0 ltac:(lia)))
             (solid 16 16 opaque_red) eq_refl).
Defined.

(** ** Opening and exporting *)

Lemma blit_onto_blank (img : Surface) :
  surface_wf img →
  blit (blank (Z.to_nat (get_width img)) (Z.to_nat (get_height img))) img
       (0, 0) None
  = img.
Proof.
  intros Hwf. unfold get_width, get_height. rewrite !Nat2Z.id.
  apply surface_eq.
  - apply surface_wf_map_pixels, surface_wf_blank.
  - exact Hwf.
  - reflexivity.
  - unfold blit, map_pixels, blank; simpl.
    rewrite length_imap, length_replicate. reflexivity.
  - intros x y. rewrite pixel_at_blit, pixel_at_blank, !Z.sub_0_r.
    destruct ((0 <=? x) && (x <? Z.of_nat (surf_w img)) &&
              (0 <=? y) && (y <? Z.of_nat (length (surf_rows img)))) eqn:Hin.
    + rewrite !andb_true_iff, !Z.leb_le, !Z.ltb_lt in Hin.
      destruct (proj2 (pixel_at_is_Some img x y Hwf)) as [s Hs].
      { unfold get_width, get_height. lia. }
      simpl. rewrite Hs. reflexivity.
    + simpl. symmetry. apply eq_None_not_Some. intros Hsome.
      apply (pixel_at_is_Some img x y Hwf) in Hsome.
      unfold get_width, get_height in Hsome.
      assert (((0 <=? x) && (x <? Z.of_nat (surf_w img)) &&
               (0 <=? y) && (y <? Z.of_nat (length (surf_rows img)))) = true)
        as Hin'
        by (rewrite !andb_true_iff, !Z.leb_le, !Z.ltb_lt; lia).
      congruence.
Qed.

(** C5. Opening a base image and exporting at once hands the save
    collaborator a surface equal to the image, pixel for pixel, alpha
    included. *)
Theorem open_then_save_is_identity (c : Composer) (img : Surface) :
  0 < tile_size c →
  surface_wf img →
  ∃ c',
    open_base c (Some (Ok img)) = Ok c'
    ∧ canvas_surface c' = Some img
    ∧ save_canvas c' true = Some img.
Proof.
  intros Ht Hwf. unfold open_base.
  rewrite (TileSheet_init_Ok img (tile_size c) Ht).
  cbn [ts_width ts_height ts_surface].
  rewrite Surface_new_Ok by (unfold get_width, get_height; lia).
  simpl mbind. rewrite (blit_onto_blank img Hwf).
  eexists. split; [reflexivity|].
  assert (∀ c0, canvas_surface c0 = Some img →
                canvas_surface (_resize_window_for_canvas c0) = Some img)
    as Hresize.
  { intros c0 H0. unfold _resize_window_for_canvas. rewrite H0. exact H0. }
  split.
  - apply Hresize. reflexivity.
  - unfold save_canvas. rewrite Hresize; reflexivity.
Qed.

Lemma surface_wf_two_cells (p q : Color) : surface_wf (two_cells p q).
Proof.
  unfold surface_wf, two_cells. cbn [surf_rows surf_w].
  apply Forall_replicate. reflexivity.
Qed.

Lemma open_then_save_is_identity_witness :
  ∃ c',
    open_base Composer_init (Some (Ok (two_cells half_red opaque_blue)))
    = Ok c'
    ∧ canvas_surface c' = Some (two_cells half_red opaque_blue)
    ∧ save_canvas c' true = Some (two_cells half_red opaque_blue).
Proof.
  apply (open_then_save_is_identity Composer_init
           (two_cells half_red opaque_blue)).
  - reflexivity.
  - apply surface_wf_two_cells.
Defined.

(** ** Selecting from the palette *)

(** C9 refuted: after the [A] key alone there is no canvas; the palette holds
    one tile, index 0 is in range, its thumbnail is drawn at (10, 10), and
    yet the call for the position (15, 15) inside that thumbnail returns
    [False] and selects nothing. *)
Lemma select_without_canvas_counterexample :
  (c ← session_add (solid 16 16 opaque_red);
   Ok ((0 + palette_scroll c) * PALETTE_COLS + 0,
       length (palette_tiles c),
       draw_palette_blits c,
       (select_tile_from_palette_coords c 15 15).2,
       selected_tile (select_tile_from_palette_coords c 15 15).1))
  = Ok (0, 1%nat, [(solid 16 16 opaque_red, (10, 10))], false, None)
  ∧ (c ← session_add (solid 16 16 opaque_red);
     Ok (select_tile_from_palette_coords c 15 15).2)
    ≠ Ok true.
Proof.
  split; [vm_compute; reflexivity|]. vm_compute. intros H. discriminate H.
Qed.

(** C9, as the code has it.  Without a canvas the call returns [False] and
    changes nothing, whatever the position.  With a canvas, and
    [px = mx - canvas_w - 10], [py = my - 10]: a position left of or above
    the grid ([px < 0] or [py < 0]) returns [False] and changes nothing;
    otherwise, with
    [idx = (py // PALETTE_THUMB + palette_scroll) * PALETTE_COLS
           + px // PALETTE_THUMB],
    when [0 <= idx < len(tiles)] the selection becomes [tiles[idx]] and the
    call returns [True], and when not the editor, its selection included, is
    unchanged and the call returns [False].  Whenever the call returns
    [False] the editor is unchanged. *)
Theorem select_tile_in_range_or_unchanged (c : Composer) (mx my : Z) :
  match canvas_surface c with
  | None => select_tile_from_palette_coords c mx my = (c, false)
  | Some cv =>
      let px := mx - get_width cv - 10 in
      let py := my - 10 in
      let idx := (py / PALETTE_THUMB + palette_scroll c) * PALETTE_COLS
                 + px / PALETTE_THUMB in
      (px < 0 ∨ py < 0 → select_tile_from_palette_coords c mx my = (c, false))
      ∧ (0 ≤ px → 0 ≤ py →
         0 ≤ idx < Z.of_nat (length (palette_tiles c)) →
         ∃ tile,
           palette_tiles c !! Z.to_nat idx = Some tile
           ∧ select_tile_from_palette_coords c mx my
             = (set_selected_tile c tile, true)
           ∧ selected_tile (select_tile_from_palette_coords c mx my).1
             = Some tile)
      ∧ (0 ≤ px → 0 ≤ py →
         ¬ (0 ≤ idx < Z.of_nat (length (palette_tiles c))) →
         select_tile_from_palette_coords c mx my = (c, false))
  end
  ∧ ((select_tile_from_palette_coords c mx my).2 = false →
     (select_tile_from_palette_coords c mx my).1 = c).
Proof.
  split.
  - destruct (canvas_surface c) as [cv|] eqn:Hcv.
    2: { unfold select_tile_from_palette_coords. rewrite Hcv. reflexivity. }
    intros px py idx. split; [|split].
    + intros Hneg. unfold select_tile_from_palette_coords. rewrite Hcv.
      cbn [get_size]. fold px py.
      destruct (Z.ltb_spec px 0); [reflexivity|].
      destruct (Z.ltb_spec py 0); [reflexivity|]. lia.
    + intros Hpx Hpy Hidx.
      destruct (lookup_lt_is_Some_2 (palette_tiles c) (Z.to_nat idx))
        as [tile Htile]; [lia|].
      exists tile. split; [exact Htile|].
      assert (select_tile_from_palette_coords c mx my
              = (set_selected_tile c tile, true)) as Hsel.
      { unfold select_tile_from_palette_coords. rewrite Hcv.
        cbn [get_size]. fold px py.
        destruct (Z.ltb_spec px 0); [lia|].
        destruct (Z.ltb_spec py 0); [lia|]. cbn [orb]. fold idx.
        destruct (Z.leb_spec 0 idx); [|lia].
        destruct (Z.ltb_spec idx (Z.of_nat (length (palette_tiles c))));
          [|lia].
        cbn [andb]. rewrite Htile. reflexivity. }
      rewrite Hsel. split; reflexivity.
    + intros Hpx Hpy Hidx. unfold select_tile_from_palette_coords.
      rewrite Hcv. cbn [get_size]. fold px py.
      destruct (Z.ltb_spec px 0); [lia|].
      destruct (Z.ltb_spec py 0); [lia|]. cbn [orb]. fold idx.
      destruct (Z.leb_spec 0 idx); cbn [andb]; [|reflexivity].
      destruct (Z.ltb_spec idx (Z.of_nat (length (palette_tiles c))));
        [lia | reflexivity].
  - unfold select_tile_from_palette_coords.
    destruct (canvas_surface c) as [cv|]; [|reflexivity].
    cbn [get_size]. destruct (_ || _); [reflexivity|].
    destruct (_ && _); [|reflexivity].
    destruct (palette_tiles c !! _); [discriminate | reflexivity].
Qed.

Lemma select_tile_in_range_or_unchanged_witness :
  select_tile_from_palette_coords
    (editor_of (session_select (solid 16 16 transparent)
                  (two_cells opaque_red opaque_blue))) 70 20
  = (set_selected_tile
       (editor_of (session_select (solid 16 16 transparent)
                     (two_cells opaque_red opaque_blue)))
       (solid 16 16 opaque_blue), true)
  ∧ select_tile_from_palette_coords
      (editor_of (session_select (solid 16 16 transparent)
                    (two_cells opaque_red opaque_blue))) 70 60
    = (editor_of (session_select (solid 16 16 transparent)
                    (two_cells opaque_red opaque_blue)), false)
  ∧ select_tile_from_palette_coords
      (editor_of (session_select (solid 16 16 transparent)
                    (two_cells opaque_red opaque_blue))) 20 60
    = (editor_of (session_select (solid 16 16 transparent)
                    (two_cells opaque_red opaque_blue)), false)
  ∧ select_tile_from_palette_coords
      (editor_of (session_add (solid 16 16 opaque_red))) 15 15
    = (editor_of (session_add (solid 16 16 opaque_red)), false).
Proof.
  pose proof (proj1 (select_tile_in_range_or_unchanged
                       (editor_of (session_select (solid 16 16 transparent)
                                     (two_cells opaque_red opaque_blue)))
                       70 20)) as Hin.
  pose proof (proj1 (select_tile_in_range_or_unchanged
                       (editor_of (session_select (solid 16 16 transparent)
                                     (two_cells opaque_red opaque_blue)))
                       70 60)) as Hout.
  pose proof (proj1 (select_tile_in_range_or_unchanged
                       (editor_of (session_select (solid 16 16 transparent)
                                     (two_cells opaque_red opaque_blue)))
                       20 60)) as Hleft.
  pose proof (proj1 (select_tile_in_range_or_unchanged
                       (editor_of (session_add (solid 16 16 opaque_red)))
                       15 15)) as Hnone.
  change (canvas_surface
            (editor_of (session_select (solid 16 16 transparent)
                          (two_cells opaque_red opaque_blue))))
    with (Some (solid 16 16 transparent)) in Hin, Hout, Hleft.
  change (canvas_surface (editor_of (session_add (solid 16 16 opaque_red))))
    with (@None Surface) in Hnone.
  cbv zeta in Hin, Hout, Hleft.
  split; [|split; [|split]].
  - destruct (proj1 (proj2 Hin)) as (tile & Htile & Hsel & _).
    + vm_compute. discriminate.
    + vm_compute. discriminate.
    + vm_compute. split; [discriminate | reflexivity].
    + vm_compute in Htile. injection Htile as <-. exact Hsel.
  - apply (proj2 (proj2 Hout)).
    + vm_compute. discriminate.
    + vm_compute. discriminate.
    + vm_compute. intros [_ H]. discriminate H.
  - apply (proj1 Hleft). left. vm_compute. reflexivity.
  - exact Hnone.
Defined.

(** ** Every sheet has a first tile *)

Lemma TileSheet_init_tiles (loaded : result Surface) (t : Z) (sheet : TileSheet) :
  TileSheet_init loaded t = Ok sheet → ts_tiles sheet ≠ [].
Proof.
  intros Hinit. destruct (Z_lt_le_dec 0 t) as [Ht|Ht].
  - destruct loaded as [img|e]; [|discriminate Hinit].
    rewrite (TileSheet_init_Ok img t Ht) in Hinit.
    injection Hinit as <-. cbn [ts_tiles]. intros Hnil.
    pose proof (grid_length (λ y x, cell_tile img t (x * t) (y * t))
                  (Z.max 1 (get_height img / t)) (Z.max 1 (get_width img / t))
                  ltac:(lia) ltac:(lia)) as Hlen.
    cbv beta in Hlen. rewrite Hnil in Hlen. simpl in Hlen. nia.
  - destruct (TileSheet_init_invalid loaded t Ht) as [e He]. congruence.
Qed.

(** The invariant: no sheet of the palette has an empty tile list. *)
Lemma add_palette_sheet_tiles (c : Composer) (answers : list (result Surface)) :
  Forall (λ sheet, ts_tiles sheet ≠ []) (palette_sheets c) →
  Forall (λ sheet, ts_tiles sheet ≠ [])
         (palette_sheets (add_palette_sheet c answers)).
Proof.
  intros Hinv. unfold add_palette_sheet.
  destruct answers as [|a answers]; [exact Hinv|].
  assert (∀ c0, palette_sheets (_resize_window_for_canvas c0)
                = palette_sheets c0) as Hresize.
  { intros c0. unfold _resize_window_for_canvas.
    destruct (canvas_surface c0); reflexivity. }
  rewrite Hresize. cbn [set_palette palette_sheets].
  revert Hinv. generalize (palette_sheets c). generalize (a :: answers).
  intros l. induction l as [|loaded l IH]; intros sheets Hinv; [exact Hinv|].
  simpl. apply IH.
  destruct (TileSheet_init loaded (tile_size c)) as [sheet|e] eqn:Hinit;
    [|exact Hinv].
  apply Forall_app. split; [exact Hinv|].
  apply Forall_singleton. exact (TileSheet_init_tiles _ _ _ Hinit).
Qed.

Lemma open_base_frame (c c' : Composer) answer :
  open_base c answer = Ok c' →
  tile_size c' = tile_size c ∧ palette_sheets c' = palette_sheets c.
Proof.
  unfold open_base, _resize_window_for_canvas. intros H.
  result_cases H; injection H as <-; split; reflexivity.
Qed.

Lemma add_palette_sheet_tile_size (c : Composer) answers :
  tile_size (add_palette_sheet c answers) = tile_size c.
Proof.
  unfold add_palette_sheet, _resize_window_for_canvas.
  destruct answers; [reflexivity|]. cbn [set_palette canvas_surface].
  destruct (canvas_surface c); reflexivity.
Qed.

Lemma place_tile_on_canvas_frame (c c' : Composer) (mx my : Z) :
  place_tile_on_canvas c mx my = Ok c' →
  tile_size c' = tile_size c ∧ palette_sheets c' = palette_sheets c.
Proof.
  unfold place_tile_on_canvas. intros H.
  result_cases H; injection H as <-; split; reflexivity.
Qed.

Lemma switch_sheet_frame (c c' : Composer) (key : Z) :
  switch_sheet c key = Ok c' →
  tile_size c' = tile_size c ∧ palette_sheets c' = palette_sheets c.
Proof.
  unfold switch_sheet. intros H.
  result_cases H; injection H as <-; split; reflexivity.
Qed.

Lemma erase_under_mouse_frame (c c' : Composer) (pos : Z * Z) :
  erase_under_mouse c pos = Ok c' →
  tile_size c' = tile_size c ∧ palette_sheets c' = palette_sheets c.
Proof.
  unfold erase_under_mouse, the_canvas. intros H.
  result_cases H; injection H as <-; split; reflexivity.
Qed.

Lemma left_button_down_frame (c c' : Composer) (pos : Z * Z) :
  left_button_down c pos = Ok c' →
  tile_size c' = tile_size c ∧ palette_sheets c' = palette_sheets c.
Proof.
  unfold left_button_down, the_canvas, select_tile_from_palette_coords.
  intros H.
  result_cases H;
    try (injection H as <-; split; reflexivity);
    try (apply place_tile_on_canvas_frame in H; exact H).
Qed.

Lemma drop_dragged_tile_frame (c c' : Composer) (pos : Z * Z) :
  drop_dragged_tile c pos = Ok c' →
  tile_size c' = tile_size c ∧ palette_sheets c' = palette_sheets c.
Proof.
  unfold drop_dragged_tile, the_canvas, as_surface. destruct pos as [mx my].
  intros H.
  destruct (get_canvas_cell_pos c mx my) as [cell|e]; [|discriminate H].
  cbn [mbind result_bind] in H.
  match type of H with
  | @mbind _ _ _ _ _ ?m = _ => destruct m as [c1|e] eqn:Hc1
  end; [|discriminate H].
  cbn [mbind result_bind] in H. injection H as <-.
  cbn [set_drag palette_sheets tile_size].
  result_cases Hc1; injection Hc1 as <-; split; reflexivity.
Qed.

(** One event keeps the tile size, and changes the sheet list only by adding
    the sheets of the [A] key. *)
Lemma handle_event_frame (w : World) (c c' : Composer) (ev : Event) :
  handle_event w c ev = Ok c' →
  tile_size c' = tile_size c
  ∧ (palette_sheets c' = palette_sheets c
     ∨ c' = add_palette_sheet c (ask_open_files w)).
Proof.
  assert (∀ c1 : Composer,
            tile_size c1 = tile_size c ∧ palette_sheets c1 = palette_sheets c →
            tile_size c1 = tile_size c
            ∧ (palette_sheets c1 = palette_sheets c
               ∨ c1 = add_palette_sheet c (ask_open_files w))) as Hkeep
    by (intros c1 [? ?]; auto).
  assert (tile_size c = tile_size c ∧ palette_sheets c = palette_sheets c)
    as Hsame by auto.
  destruct ev as [| ew eh | key | pos button | pos | pos button |];
    cbn [handle_event]; intros H.
  - injection H as <-. apply Hkeep. split; reflexivity.
  - destruct (display_set_mode _ _); [|discriminate H].
    injection H as <-. apply Hkeep. split; reflexivity.
  - destruct (key =? K_o);
      [apply Hkeep; eapply open_base_frame; eassumption|].
    destruct (key =? K_a).
    { injection H as <-. split; [apply add_palette_sheet_tile_size|].
      right. reflexivity. }
    destruct (key =? K_s); [injection H as <-; apply Hkeep, Hsame|].
    destruct (key =? K_z);
      [injection H as <-; apply Hkeep; split; reflexivity|].
    destruct ((key =? K_ESCAPE) || (key =? K_q));
      [injection H as <-; apply Hkeep; split; reflexivity|].
    destruct ((K_1 <=? key) && (key <=? K_9));
      [apply Hkeep; eapply switch_sheet_frame; eassumption|].
    destruct (key =? K_x);
      [apply Hkeep; eapply erase_under_mouse_frame; eassumption|].
    injection H as <-. apply Hkeep, Hsame.
  - destruct (button =? 1);
      [apply Hkeep; eapply left_button_down_frame; eassumption|].
    destruct (button =? 4);
      [injection H as <-; apply Hkeep; split; reflexivity|].
    destruct (button =? 5);
      [injection H as <-; apply Hkeep; split; reflexivity|].
    injection H as <-. apply Hkeep, Hsame.
  - destruct (canvas_dragging c);
      [injection H as <-; apply Hkeep; split; reflexivity|].
    injection H as <-. apply Hkeep, Hsame.
  - destruct ((button =? 1) && canvas_dragging c);
      [apply Hkeep; eapply drop_dragged_tile_frame; eassumption|].
    injection H as <-. apply Hkeep, Hsame.
  - injection H as <-. apply Hkeep, Hsame.
Qed.

(** In every state the editor can reach the tile size is the default one. *)
Lemma reachable_tile_size (c : Composer) :
  reachable c → tile_size c = TILE_SIZE.
Proof.
  induction 1 as [|c w ev c' _ IH Hstep]; [reflexivity|].
  destruct (handle_event_frame w c c' ev Hstep) as [-> _]. exact IH.
Qed.

Lemma reachable_sheets_have_tiles (c : Composer) :
  reachable c → Forall (λ sheet, ts_tiles sheet ≠ []) (palette_sheets c).
Proof.
  induction 1 as [|c w ev c' _ IH Hstep]; [constructor|].
  destruct (handle_event_frame w c c' ev Hstep) as [_ [-> | ->]];
    [exact IH | apply add_palette_sheet_tiles, IH].
Qed.

Lemma getitem_Ok {A : Type} (l : list A) (i : Z) (a : A) :
  0 ≤ i → l !! Z.to_nat i = Some a → getitem l i = Ok a.
Proof.
  intros Hi Ha. unfold getitem. destruct (Z.ltb_spec i 0); [lia|].
  destruct (Z.ltb_spec i 0); [lia|]. rewrite Ha. reflexivity.
Qed.

(** C10. A constructed [TileSheet] always has at least one tile, and in every
    state the editor can reach a number key [1..9] is handled without an
    exception: when the key names a loaded sheet, the selection becomes that
    sheet's tile number 0; otherwise the editor is unchanged. *)
Theorem first_tile_always_exists :
  (∀ loaded t sheet,
     TileSheet_init loaded t = Ok sheet → (1 ≤ length (ts_tiles sheet))%nat)
  ∧ (∀ c w key,
       reachable c → K_1 ≤ key ≤ K_9 →
       ∃ c',
         handle_event w c (KEYDOWN key) = Ok c'
         ∧ match palette_sheets c !! Z.to_nat (key - K_1) with
           | Some sheet =>
               ∃ tile, ts_tiles sheet !! 0%nat = Some tile
                       ∧ selected_tile c' = Some tile
           | None => c' = c
           end).
Proof.
  split.
  - intros loaded t sheet Hinit.
    pose proof (TileSheet_init_tiles loaded t sheet Hinit) as Hne.
    destruct (ts_tiles sheet); [contradiction | simpl; lia].
  - intros c w key Hreach Hkey.
    pose proof (reachable_sheets_have_tiles c Hreach) as Hinv.
    unfold K_1, K_9 in Hkey. cbn [handle_event].
    destruct (Z.eqb_spec key K_o) as [->|_]; [unfold K_o in Hkey; lia|].
    destruct (Z.eqb_spec key K_a) as [->|_]; [unfold K_a in Hkey; lia|].
    destruct (Z.eqb_spec key K_s) as [->|_]; [unfold K_s in Hkey; lia|].
    destruct (Z.eqb_spec key K_z) as [->|_]; [unfold K_z in Hkey; lia|].
    destruct (Z.eqb_spec key K_ESCAPE) as [->|_];
      [unfold K_ESCAPE in Hkey; lia|].
    destruct (Z.eqb_spec key K_q) as [->|_]; [unfold K_q in Hkey; lia|].
    cbn [orb].
    destruct (Z.leb_spec K_1 key); [|unfold K_1 in *; lia].
    destruct (Z.leb_spec key K_9); [|unfold K_9 in *; lia].
    cbn [andb]. unfold switch_sheet.
    destruct (Z.ltb_spec (key - K_1) (Z.of_nat (length (palette_sheets c))))
      as [Hlt|Hge].
    + destruct (lookup_lt_is_Some_2 (palette_sheets c) (Z.to_nat (key - K_1)))
        as [sheet Hsheet]; [unfold K_1 in *; lia|].
      rewrite Hsheet. cbn [set_palette palette_sheets palette_index].
      destruct (palette_sheets c) as [|s0 sheets] eqn:Hsheets;
        [discriminate Hsheet|].
      rewrite (getitem_Ok _ (key - K_1) sheet) by (unfold K_1; lia || exact Hsheet).
      cbn [mbind result_bind].
      rewrite Forall_lookup in Hinv. specialize (Hinv _ _ Hsheet).
      destruct (ts_tiles sheet) as [|tile tiles] eqn:Htiles; [contradiction|].
      rewrite (getitem_Ok _ 0 tile) by (lia || reflexivity).
      cbn [mbind result_bind]. eexists. split; [reflexivity|].
      exists tile. split; reflexivity.
    + rewrite (proj2 (lookup_ge_None _ _)) by (unfold K_1 in *; lia).
      exists c. split; reflexivity.
Qed.

Lemma first_tile_always_exists_witness :
  (∀ sheet,
     TileSheet_init (Ok (solid 16 16 opaque_red)) 16 = Ok sheet →
     (1 ≤ length (ts_tiles sheet))%nat)
  ∧ ∃ c',
      handle_event world_quiet
        (editor_of (session_add (solid 16 16 opaque_red))) (KEYDOWN K_1)
      = Ok c'
      ∧ selected_tile c' = Some (solid 16 16 opaque_red).
Proof.
  split.
  - intros sheet Hsheet.
    exact (proj1 first_tile_always_exists
             (Ok (solid 16 16 opaque_red)) 16 sheet Hsheet).
  - destruct (proj2 first_tile_always_exists
                (editor_of (session_add (solid 16 16 opaque_red)))
                world_quiet K_1)
      as (c' & Hev & Hsel).
    + apply (reachable_step Composer_init (world_add (solid 16 16 opaque_red))
               (KEYDOWN K_a)).
      * apply reachable_init.
      * vm_compute. reflexivity.
    + vm_compute. split; discriminate.
    + exists c'. split; [exact Hev|].
      vm_compute in Hsel. destruct Hsel as (tile & [= <-] & Hsel).
      exact Hsel.
Defined.

(** ** What one event can do *)

Lemma TileSheet_init_dims (loaded : result Surface) (t : Z) (ts : TileSheet) :
  TileSheet_init loaded t = Ok ts →
  ts_width ts = get_width (ts_surface ts)
  ∧ ts_height ts = get_height (ts_surface ts)
  ∧ ts_tile_size ts = t.
Proof.
  unfold TileSheet_init. destruct loaded as [img|e]; [|discriminate].
  cbn [mbind result_bind get_size]. intros H.
  destruct (floordiv (get_width img) t); [|discriminate H].
  cbn [mbind result_bind] in H.
  destruct (floordiv (get_height img) t); [|discriminate H].
  cbn [mbind result_bind] in H.
  destruct (_slice_tiles _ _ _ _); [|discriminate H].
  cbn [mbind result_bind] in H. injection H as <-. auto.
Qed.

Lemma open_base_effect (w : World) (c c' : Composer) answer :
  open_base c answer = Ok c' → event_effect w c (KEYDOWN K_o) c'.
Proof.
  unfold open_base. destruct answer as [loaded|];
    [|intros [= <-]; apply effect_none].
  destruct (TileSheet_init loaded (tile_size c)) as [ts|e] eqn:Hinit;
    [|intros [= <-]; apply effect_none].
  destruct (TileSheet_init_dims _ _ _ Hinit) as (Hw & Hh & _).
  rewrite Surface_new_Ok by (rewrite ?Hw, ?Hh; unfold get_width, get_height; lia).
  cbn [mbind result_bind]. intros [= <-].
  apply effect_open; rewrite ?Hw, ?Hh; unfold get_width, get_height; lia.
Qed.

Lemma switch_sheet_effect (w : World) (c c' : Composer) (ev : Event) (key : Z) :
  K_1 ≤ key → switch_sheet c key = Ok c' → event_effect w c ev c'.
Proof.
  intros Hkey. unfold switch_sheet.
  destruct (Z.ltb_spec (key - K_1) (Z.of_nat (length (palette_sheets c))))
    as [Hlt|Hge]; [|intros [= <-]; apply effect_none].
  cbn [set_palette palette_sheets palette_index].
  destruct (palette_sheets c) as [|s0 l] eqn:Hsheets; [simpl in Hlt; lia|].
  rewrite <- Hsheets in *. intros H.
  destruct (getitem (palette_sheets c) (key - K_1)) as [sheet|e];
    [|discriminate H].
  cbn [mbind result_bind] in H.
  destruct (getitem (ts_tiles sheet) 0) as [tile|e]; [|discriminate H].
  cbn [mbind result_bind] in H. injection H as <-.
  apply effect_switch. lia.
Qed.

Lemma place_tile_on_canvas_effect (w : World) (c c' : Composer) ev (mx my : Z) :
  place_tile_on_canvas c mx my = Ok c' → event_effect w c ev c'.
Proof.
  unfold place_tile_on_canvas, blit. intros H.
  result_cases H; injection H as <-;
    first [apply effect_none | eapply effect_paint; eassumption].
Qed.

Lemma erase_under_mouse_effect (w : World) (c c' : Composer) ev (pos : Z * Z) :
  erase_under_mouse c pos = Ok c' → event_effect w c ev c'.
Proof.
  unfold erase_under_mouse, the_canvas, fill. destruct pos as [mx my].
  destruct (get_canvas_cell_pos c mx my) as [[[tx ty]|]|e];
    cbn [mbind result_bind]; [|intros [= <-]; apply effect_none|discriminate].
  destruct (canvas_surface c) as [cv|] eqn:Hcv; cbn [mbind result_bind];
    [|discriminate].
  intros [= <-]. eapply effect_paint. exact Hcv.
Qed.

Lemma select_tile_from_palette_coords_effect
    (w : World) (c : Composer) ev (mx my : Z) :
  event_effect w c ev (select_tile_from_palette_coords c mx my).1.
Proof.
  unfold select_tile_from_palette_coords.
  destruct (canvas_surface c) as [cv|]; [|apply effect_none].
  cbn [get_size]. destruct (_ || _); [apply effect_none|].
  destruct (_ && _); [|apply effect_none].
  destruct (palette_tiles c !! _); [apply effect_select | apply effect_none].
Qed.

Lemma left_button_down_effect (w : World) (c c' : Composer) ev (pos : Z * Z) :
  left_button_down c pos = Ok c' → event_effect w c ev c'.
Proof.
  unfold left_button_down. destruct pos as [mx my].
  destruct (match canvas_surface c with
            | Some cv => mx >? get_width cv
            | None => false
            end).
  { intros [= <-]. apply select_tile_from_palette_coords_effect. }
  destruct (get_canvas_cell_pos c mx my) as [[[tx ty]|]|e];
    cbn [mbind result_bind]; [|intros [= <-]; apply effect_none|discriminate].
  destruct (get_tile_surface_from_canvas c tx ty) as [tile|e];
    cbn [mbind result_bind]; [|discriminate].
  destruct (is_surface_nonempty tile);
    [|apply place_tile_on_canvas_effect].
  unfold the_canvas, fill. cbn [set_drag canvas_surface tile_size].
  destruct (canvas_surface c) as [cv|] eqn:Hcv; cbn [mbind result_bind];
    [|discriminate].
  intros [= <-]. eapply effect_lift. exact Hcv.
Qed.

Lemma drop_dragged_tile_effect (w : World) (c c' : Composer) ev (pos : Z * Z) :
  drop_dragged_tile c pos = Ok c' → event_effect w c ev c'.
Proof.
  unfold drop_dragged_tile, the_canvas, as_surface, blit.
  destruct pos as [mx my].
  destruct (get_canvas_cell_pos c mx my) as [cell|e];
    cbn [mbind result_bind]; [|discriminate].
  destruct (canvas_surface c) as [cv|] eqn:Hcv.
  2: { destruct cell as [[tx ty]|]; [discriminate|].
       destruct (canvas_selected_orig c) as [[ox oy]|]; discriminate. }
  destruct (canvas_selected_tile c) as [tile|].
  2: { destruct cell as [[tx ty]|]; [discriminate|].
       destruct (canvas_selected_orig c) as [[ox oy]|]; discriminate. }
  destruct cell as [[tx ty]|]; cbn [mbind result_bind].
  - intros [= <-]. cbn [set_canvas canvas_drag_mouse].
    apply (effect_drop w c ev cv _ Hcv).
  - destruct (canvas_selected_orig c) as [[ox oy]|]; cbn [mbind result_bind];
      [|discriminate].
    intros [= <-]. cbn [set_canvas canvas_drag_mouse].
    apply (effect_drop w c ev cv _ Hcv).
Qed.

(** Whatever the event, the new state is the old one changed in one of the
    ways of [event_effect]. *)
Lemma handle_event_effect (w : World) (c c' : Composer) (ev : Event) :
  handle_event w c ev = Ok c' → event_effect w c ev c'.
Proof.
  destruct ev as [| ew eh | key | pos button | pos | pos button |];
    cbn [handle_event]; intros H.
  - injection H as <-. apply effect_running.
  - destruct (display_set_mode _ _); [|discriminate H].
    injection H as <-. apply effect_window.
  - revert H. destruct (Z.eqb_spec key K_o) as [->|_];
      [apply open_base_effect|]. intros H.
    destruct (key =? K_a); [injection H as <-; apply effect_add|].
    destruct (key =? K_s); [injection H as <-; apply effect_none|].
    destruct (key =? K_z); [injection H as <-; apply effect_grid|].
    destruct ((key =? K_ESCAPE) || (key =? K_q));
      [injection H as <-; apply effect_running|].
    revert H. destruct (Z.leb_spec K_1 key) as [Hk|Hk]; cbn [andb]; intros H.
    + destruct (key <=? K_9); [eapply switch_sheet_effect; eassumption|].
      destruct (key =? K_x); [eapply erase_under_mouse_effect, H|].
      injection H as <-. apply effect_none.
    + destruct (key =? K_x); [eapply erase_under_mouse_effect, H|].
      injection H as <-. apply effect_none.
  - destruct (button =? 1); [eapply left_button_down_effect, H|].
    destruct (button =? 4); [injection H as <-; apply effect_scroll_up|].
    destruct (button =? 5); [injection H as <-; apply effect_scroll_down|].
    injection H as <-. apply effect_none.
  - destruct (canvas_dragging c) eqn:Hdrag;
      [|injection H as <-; apply effect_none].
    injection H as <-.
    pose proof (effect_motion w c (MOUSEMOTION pos) pos Hdrag) as Hmove.
    rewrite Hdrag in Hmove. exact Hmove.
  - destruct ((button =? 1) && canvas_dragging c);
      [eapply drop_dragged_tile_effect, H|].
    injection H as <-. apply effect_none.
  - injection H as <-. apply effect_none.
Qed.

(** ** Invariants kept by the event loop *)

Lemma add_palette_sheet_fields (c : Composer) (answers : list (result Surface)) :
  let c' := add_palette_sheet c answers in
  canvas_surface c' = canvas_surface c
  ∧ base_sheet c' = base_sheet c
  ∧ selected_tile c' = selected_tile c
  ∧ canvas_selected_tile c' = canvas_selected_tile c
  ∧ canvas_selected_orig c' = canvas_selected_orig c
  ∧ canvas_dragging c' = canvas_dragging c
  ∧ palette_scroll c' = palette_scroll c.
Proof.
  unfold add_palette_sheet, _resize_window_for_canvas.
  destruct answers as [|a answers]; [cbn; auto 10|].
  cbn [set_palette canvas_surface].
  destruct (canvas_surface c) as [cv|] eqn:Hcv; cbn; rewrite ?Hcv; auto 10.
Qed.

(** The sheets after [add_palette_sheet]: the old ones, then one sheet per
    answer whose constructor succeeded, in order. *)
Lemma add_palette_sheet_sheets (c : Composer) (answers : list (result Surface)) :
  palette_sheets (add_palette_sheet c answers)
  = palette_sheets c
    ++ omap (λ loaded,
               match TileSheet_init loaded (tile_size c) with
               | Ok ts => Some ts
               | Raise _ => None
               end)
            answers.
Proof.
  unfold add_palette_sheet, _resize_window_for_canvas.
  destruct answers as [|a answers]; [cbn; rewrite app_nil_r; reflexivity|].
  assert (∀ l sheets,
            foldl (λ sheets loaded,
                     match TileSheet_init loaded (tile_size c) with
                     | Ok ts => sheets ++ [ts]
                     | Raise _ => sheets
                     end) sheets l
            = sheets
              ++ omap (λ loaded,
                         match TileSheet_init loaded (tile_size c) with
                         | Ok ts => Some ts
                         | Raise _ => None
                         end) l) as Hfold.
  { induction l as [|loaded l IH]; intros sheets; cbn [foldl omap list_omap].
    - rewrite app_nil_r. reflexivity.
    - rewrite IH.
      destruct (TileSheet_init loaded (tile_size c)); cbn;
        rewrite <- ?app_assoc; reflexivity. }
  cbn [set_palette canvas_surface].
  destruct (canvas_surface c); cbn [set_window set_palette palette_sheets get_size];
    apply Hfold.
Qed.

Lemma add_palette_sheet_index (c : Composer) (answers : list (result Surface)) :
  palette_index_ok c → palette_index_ok (add_palette_sheet c answers).
Proof.
  intros [Hlo Hhi]. unfold palette_index_ok.
  pose proof (add_palette_sheet_sheets c answers) as Hsheets.
  destruct answers as [|a answers]; [split; assumption|].
  rewrite Hsheets.
  assert (palette_index (add_palette_sheet c (a :: answers))
          = let n := Z.of_nat (length (palette_sheets c
                ++ omap (λ loaded,
                           match TileSheet_init loaded (tile_size c) with
                           | Ok ts => Some ts
                           | Raise _ => None
                           end) (a :: answers))) in
            if 0 <? n then Z.min (palette_index c) (n - 1)
            else palette_index c) as ->.
  { rewrite <- Hsheets. unfold add_palette_sheet, _resize_window_for_canvas.
    cbn [set_palette canvas_surface].
    destruct (canvas_surface c); reflexivity. }
  cbv zeta.
  set (n := Z.of_nat (length _)).
  destruct (Z.ltb_spec 0 n) as [Hn|Hn].
  - split; [lia|]. intros _. lia.
  - split; [exact Hlo|]. intros Hne. exfalso. apply Hne.
    apply length_zero_iff_nil. lia.
Qed.

Lemma event_effect_drag_state_ok (w : World) (c c' : Composer) (ev : Event) :
  event_effect w c ev c' → drag_state_ok c → drag_state_ok c'.
Proof.
  unfold drag_state_ok.
  destruct 1;
    try (cbn; unfold is_Some;
         destruct (canvas_dragging c); intros Hinv; intuition eauto; fail).
  - destruct (add_palette_sheet_fields c (ask_open_files w))
      as (-> & _ & _ & -> & -> & -> & _).
    auto.
Qed.

Lemma event_effect_scroll (w : World) (c c' : Composer) (ev : Event) :
  event_effect w c ev c' → 0 ≤ palette_scroll c → 0 ≤ palette_scroll c'.
Proof.
  destruct 1; try (cbn; intros Hinv; lia).
  - destruct (add_palette_sheet_fields c (ask_open_files w))
      as (_ & _ & _ & _ & _ & _ & ->).
    auto.
Qed.

Lemma event_effect_palette_index (w : World) (c c' : Composer) (ev : Event) :
  event_effect w c ev c' → palette_index_ok c → palette_index_ok c'.
Proof.
  unfold palette_index_ok.
  destruct 1; try (cbn; intros Hinv; exact Hinv).
  - cbn. intros _. split; [lia|]. intros _. lia.
  - apply add_palette_sheet_index.
Qed.

(** Everything the loop keeps true, in one induction. *)
Lemma reachable_invariants (c : Composer) :
  reachable c →
  drag_state_ok c ∧ 0 ≤ palette_scroll c ∧ palette_index_ok c.
Proof.
  induction 1 as [|c w ev c' _ (Hdrag & Hscroll & Hidx) Hstep].
  - unfold drag_state_ok, palette_index_ok. cbn. repeat split; auto; try lia.
    intros Hne. contradiction.
  - apply handle_event_effect in Hstep. split; [|split].
    + exact (event_effect_drag_state_ok w c c' ev Hstep Hdrag).
    + exact (event_effect_scroll w c c' ev Hstep Hscroll).
    + exact (event_effect_palette_index w c c' ev Hstep Hidx).
Qed.

Lemma reachable_handle_events (c c' : Composer) (events : list (World * Event)) :
  reachable c → handle_events c events = Ok c' → reachable c'.
Proof.
  revert c. induction events as [|[w ev] events IH]; intros c Hc; cbn.
  - intros [= <-]. exact Hc.
  - destruct (handle_event w c ev) as [c1|e] eqn:Hstep; cbn; [|discriminate].
    apply IH. exact (reachable_step c w ev c1 Hc Hstep).
Qed.

(** X5. In every state the editor can reach the drag fields agree: while
    [canvas_dragging] is set there is a canvas, a held tile and an origin
    cell; while it is not, no tile and no origin are held. *)
Theorem drag_fields_agree (c : Composer) : reachable c → drag_state_ok c.
Proof. intros Hreach. apply (reachable_invariants c Hreach). Qed.

Lemma drag_fields_agree_witness :
  drag_state_ok
    (editor_of (session_press (two_cells opaque_red opaque_blue) (5, 5)))
  ∧ canvas_dragging
      (editor_of (session_press (two_cells opaque_red opaque_blue) (5, 5)))
    = true.
Proof.
  split; [|vm_compute; reflexivity].
  apply (drag_fields_agree
           (editor_of (session_press (two_cells opaque_red opaque_blue) (5, 5)))).
  apply (reachable_handle_events Composer_init _
           [(world_open (two_cells opaque_red opaque_blue), KEYDOWN K_o);
            (world_quiet, MOUSEBUTTONDOWN (5, 5) 1)] reachable_init).
  vm_compute. reflexivity.
Defined.

(** X6. The palette scroll offset is never negative in a reachable state;
    there, a wheel-down followed by a wheel-up gives the editor back exactly,
    and a wheel-up at offset 0 changes nothing. *)
Theorem palette_scroll_floor (c : Composer) :
  reachable c →
  0 ≤ palette_scroll c
  ∧ (∀ w1 w2 p1 p2,
       handle_events c [(w1, MOUSEBUTTONDOWN p1 5); (w2, MOUSEBUTTONDOWN p2 4)]
       = Ok c)
  ∧ (palette_scroll c = 0 →
     ∀ w p, handle_event w c (MOUSEBUTTONDOWN p 4) = Ok c).
Proof.
  intros Hreach. destruct (reachable_invariants c Hreach) as (_ & Hscroll & _).
  split; [exact Hscroll|]. split.
  - intros w1 w2 p1 p2. cbn. f_equal.
    replace (Z.max 0 (palette_scroll c + 1 - 1)) with (palette_scroll c)
      by lia.
    destruct c; reflexivity.
  - intros H0 w p. cbn. rewrite H0. cbn. f_equal.
    destruct c; cbn in *. subst. reflexivity.
Qed.

Lemma palette_scroll_floor_witness :
  palette_scroll (editor_of (session_scrolled (solid 16 16 opaque_red))) = 2
  ∧ handle_events (editor_of (session_scrolled (solid 16 16 opaque_red)))
      [(world_quiet, MOUSEBUTTONDOWN (300, 40) 5);
       (world_quiet, MOUSEBUTTONDOWN (300, 40) 4)]
    = Ok (editor_of (session_scrolled (solid 16 16 opaque_red))).
Proof.
  assert (reachable (editor_of (session_scrolled (solid 16 16 opaque_red))))
    as Hreach.
  { apply (reachable_handle_events Composer_init _
             [(world_add (solid 16 16 opaque_red), KEYDOWN K_a);
              (world_quiet, MOUSEBUTTONDOWN (300, 40) 5);
              (world_quiet, MOUSEBUTTONDOWN (300, 40) 5)] reachable_init).
    vm_compute. reflexivity. }
  split; [vm_compute; reflexivity|].
  exact (proj1 (proj2 (palette_scroll_floor _ Hreach))
           world_quiet world_quiet (300, 40) (300, 40)).
Defined.

(** X7. In every reachable state [palette_index] is not negative and, once a
    sheet is loaded, is the index of a loaded sheet. *)
Theorem palette_index_in_range (c : Composer) :
  reachable c →
  0 ≤ palette_index c
  ∧ (palette_sheets c ≠ [] →
     ∃ sheet, palette_sheets c !! Z.to_nat (palette_index c) = Some sheet).
Proof.
  intros Hreach.
  destruct (reachable_invariants c Hreach) as (_ & _ & Hlo & Hhi).
  split; [exact Hlo|]. intros Hne. apply lookup_lt_is_Some_2.
  specialize (Hhi Hne). lia.
Qed.

Lemma palette_index_in_range_witness :
  ∃ sheet,
    palette_sheets (editor_of (session_select (solid 16 16 transparent)
                                 (two_cells opaque_red opaque_blue)))
      !! Z.to_nat (palette_index
                     (editor_of (session_select (solid 16 16 transparent)
                                   (two_cells opaque_red opaque_blue))))
    = Some sheet.
Proof.
  apply (palette_index_in_range
           (editor_of (session_select (solid 16 16 transparent)
                         (two_cells opaque_red opaque_blue)))).
  - apply (reachable_handle_events Composer_init _
             [(world_open (solid 16 16 transparent), KEYDOWN K_o);
              (world_add (two_cells opaque_red opaque_blue), KEYDOWN K_a);
              (world_quiet, KEYDOWN K_1)] reachable_init).
    vm_compute. reflexivity.
  - vm_compute. discriminate.
Defined.

(** ** The loop never raises *)

Lemma get_canvas_cell_pos_total (c : Composer) (mx my : Z) :
  0 < tile_size c →
  get_canvas_cell_pos c mx my = Ok None
  ∨ ∃ cv, canvas_surface c = Some cv ∧ on_surface cv mx my
          ∧ get_canvas_cell_pos c mx my
            = Ok (Some (snap (tile_size c) mx, snap (tile_size c) my)).
Proof.
  intros Ht. destruct (canvas_surface c) as [cv|] eqn:Hcv.
  - destruct (classic_on_surface cv mx my) as [Hon|Hoff].
    + right. exists cv. split; [reflexivity|]. split; [exact Hon|].
      apply (get_canvas_cell_pos_on c cv mx my Ht Hcv Hon).
    + left. apply (get_canvas_cell_pos_off c cv mx my Hcv Hoff).
  - left. unfold get_canvas_cell_pos. rewrite Hcv. reflexivity.
Qed.

Lemma open_base_Ok (c : Composer) answer : ∃ c', open_base c answer = Ok c'.
Proof.
  unfold open_base. destruct answer as [loaded|]; [|eauto].
  destruct (TileSheet_init loaded (tile_size c)) as [ts|e] eqn:Hinit; [|eauto].
  destruct (TileSheet_init_dims _ _ _ Hinit) as (Hw & Hh & _).
  rewrite Surface_new_Ok by (rewrite ?Hw, ?Hh; unfold get_width, get_height; lia).
  cbn [mbind result_bind]. eauto.
Qed.

Lemma switch_sheet_Ok (c : Composer) (key : Z) :
  Forall (λ sheet, ts_tiles sheet ≠ []) (palette_sheets c) →
  K_1 ≤ key → ∃ c', switch_sheet c key = Ok c'.
Proof.
  intros Hinv Hkey. unfold switch_sheet.
  destruct (Z.ltb_spec (key - K_1) (Z.of_nat (length (palette_sheets c))))
    as [Hlt|Hge]; [|eauto].
  destruct (lookup_lt_is_Some_2 (palette_sheets c) (Z.to_nat (key - K_1)))
    as [sheet Hsheet]; [lia|].
  cbn [set_palette palette_sheets palette_index].
  destruct (palette_sheets c) as [|s0 sheets] eqn:Hsheets;
    [discriminate Hsheet|].
  rewrite (getitem_Ok _ (key - K_1) sheet) by (lia || exact Hsheet).
  cbn [mbind result_bind].
  rewrite Forall_lookup in Hinv. specialize (Hinv _ _ Hsheet).
  destruct (ts_tiles sheet) as [|tile tiles] eqn:Htiles; [contradiction|].
  rewrite (getitem_Ok _ 0 tile) by (lia || reflexivity).
  cbn [mbind result_bind]. eauto.
Qed.

Lemma place_tile_on_canvas_Ok_any (c : Composer) (mx my : Z) :
  0 < tile_size c → ∃ c', place_tile_on_canvas c mx my = Ok c'.
Proof.
  intros Ht. unfold place_tile_on_canvas.
  destruct (canvas_surface c); [|eauto]. destruct (selected_tile c); [|eauto].
  rewrite !floordiv_pos by assumption. cbn [mbind result_bind].
  destruct (_ || _); [eauto|]. destruct (_ || _); eauto.
Qed.

Lemma erase_under_mouse_Ok (c : Composer) (pos : Z * Z) :
  0 < tile_size c → ∃ c', erase_under_mouse c pos = Ok c'.
Proof.
  intros Ht. destruct pos as [mx my].
  destruct (get_canvas_cell_pos_total c mx my Ht) as [Hnone|(cv & Hcv & Hon & _)].
  - unfold erase_under_mouse. rewrite Hnone. cbn. eauto.
  - rewrite (erase_under_mouse_on c cv mx my Ht Hcv Hon). eauto.
Qed.

Lemma left_button_down_Ok (c : Composer) (pos : Z * Z) :
  0 < tile_size c → ∃ c', left_button_down c pos = Ok c'.
Proof.
  intros Ht. destruct pos as [mx my]. unfold left_button_down.
  destruct (match canvas_surface c with
            | Some cv => mx >? get_width cv
            | None => false
            end); [eauto|].
  destruct (get_canvas_cell_pos_total c mx my Ht)
    as [Hnone|(cv & Hcv & Hon & Hcell)].
  - rewrite Hnone. cbn. eauto.
  - rewrite Hcell. cbn [mbind result_bind].
    rewrite (get_tile_surface_from_canvas_Ok c cv _ _ Ht Hcv).
    cbn [mbind result_bind].
    destruct (is_surface_nonempty _);
      [|apply place_tile_on_canvas_Ok_any; exact Ht].
    unfold the_canvas. cbn [set_drag canvas_surface]. rewrite Hcv.
    cbn [mbind result_bind]. eauto.
Qed.

Lemma drop_dragged_tile_Ok (c : Composer) (pos : Z * Z) :
  0 < tile_size c → drag_state_ok c → canvas_dragging c = true →
  ∃ c', drop_dragged_tile c pos = Ok c'.
Proof.
  intros Ht Hok Hdrag. unfold drag_state_ok in Hok. rewrite Hdrag in Hok.
  destruct Hok as ([cv Hcv] & [tile Htile] & [[ox oy] Horig]).
  destruct pos as [mx my]. unfold drop_dragged_tile, the_canvas, as_surface.
  rewrite Hcv, Htile, Horig.
  destruct (get_canvas_cell_pos_total c mx my Ht)
    as [Hnone|(cv' & _ & _ & Hcell)].
  - rewrite Hnone. cbn. eauto.
  - rewrite Hcell. cbn. eauto.
Qed.

(** X4. In every state the editor can reach, every event other than a
    resize to a negative size is handled without an exception: the loop
    never stops on a division by zero, a missing canvas, tile or origin, or
    an index out of range.  (A [VIDEORESIZE] with a negative size is refused
    by the unguarded [set_mode] call and does stop the loop.) *)
Theorem event_loop_never_raises (c : Composer) (w : World) :
  reachable c →
  (∀ ev,
     (∀ ew eh, ev = VIDEORESIZE ew eh → 0 ≤ ew ∧ 0 ≤ eh) →
     ∃ c', handle_event w c ev = Ok c')
  ∧ (∀ ew eh,
       ew < 0 ∨ eh < 0 →
       handle_event w c (VIDEORESIZE ew eh) = Raise pygame_error).
Proof.
  intros Hreach. split.
  2: { intros ew eh Hneg. cbn [handle_event set_window win_w win_h].
       unfold display_set_mode.
       destruct (Z.ltb_spec ew 0); [reflexivity|].
       destruct (Z.ltb_spec eh 0); [reflexivity|]. lia. }
  intros ev Hsize.
  pose proof (reachable_tile_size c Hreach) as Hts.
  assert (0 < tile_size c) as Ht by (rewrite Hts; reflexivity).
  pose proof (reachable_sheets_have_tiles c Hreach) as Hsheets.
  destruct (reachable_invariants c Hreach) as (Hdrag & _ & _).
  destruct ev as [| ew eh | key | pos button | pos | pos button |];
    cbn [handle_event].
  - eauto.
  - destruct (Hsize ew eh eq_refl) as [Hw Hh].
    unfold display_set_mode. cbn [set_window win_w win_h].
    destruct (Z.ltb_spec ew 0); [lia|]. destruct (Z.ltb_spec eh 0); [lia|].
    cbn. eauto.
  - destruct (key =? K_o); [apply open_base_Ok|].
    destruct (key =? K_a); [eauto|]. destruct (key =? K_s); [eauto|].
    destruct (key =? K_z); [eauto|].
    destruct ((key =? K_ESCAPE) || (key =? K_q)); [eauto|].
    destruct (Z.leb_spec K_1 key) as [Hk|Hk]; cbn [andb].
    + destruct (key <=? K_9); [apply switch_sheet_Ok; assumption|].
      destruct (key =? K_x); [apply erase_under_mouse_Ok; exact Ht | eauto].
    + destruct (key =? K_x); [apply erase_under_mouse_Ok; exact Ht | eauto].
  - destruct (button =? 1); [apply left_button_down_Ok; exact Ht|].
    destruct (button =? 4); [eauto|]. destruct (button =? 5); eauto.
  - destruct (canvas_dragging c); eauto.
  - destruct (button =? 1); cbn [andb]; [|eauto].
    destruct (canvas_dragging c) eqn:Hd; [|eauto].
    apply drop_dragged_tile_Ok; assumption.
  - eauto.
Qed.

Lemma event_loop_never_raises_witness :
  (∃ c',
     handle_event world_quiet
       (editor_of (session_press (two_cells opaque_red opaque_blue) (5, 5)))
       (MOUSEBUTTONUP (-3, 400) 1)
     = Ok c')
  ∧ ∃ c',
      handle_event world_quiet
        (editor_of (session_press (two_cells opaque_red opaque_blue) (5, 5)))
        (VIDEORESIZE 640 0)
      = Ok c'.
Proof.
  assert (reachable
            (editor_of (session_press (two_cells opaque_red opaque_blue)
                          (5, 5)))) as Hreach.
  { apply (reachable_handle_events Composer_init _
             [(world_open (two_cells opaque_red opaque_blue), KEYDOWN K_o);
              (world_quiet, MOUSEBUTTONDOWN (5, 5) 1)] reachable_init).
    vm_compute. reflexivity. }
  split.
  - apply (proj1 (event_loop_never_raises _ world_quiet Hreach)
             (MOUSEBUTTONUP (-3, 400) 1)).
    intros ew eh Hev. discriminate Hev.
  - apply (proj1 (event_loop_never_raises _ world_quiet Hreach)
             (VIDEORESIZE 640 0)).
    intros ew eh [= <- <-]. lia.
Defined.

(** X10. Before a base image is opened nothing can be edited: in a reachable
    state without a canvas a press of any button but the wheel, a pointer
    move, a button release and the erase key all leave the editor exactly as
    it is, so no palette tile can be selected by clicking either. *)
Theorem no_canvas_no_edit (c : Composer) :
  reachable c →
  canvas_surface c = None →
  ∀ w pos button,
    (button ≠ 4 → button ≠ 5 →
     handle_event w c (MOUSEBUTTONDOWN pos button) = Ok c)
    ∧ handle_event w c (MOUSEMOTION pos) = Ok c
    ∧ handle_event w c (MOUSEBUTTONUP pos button) = Ok c
    ∧ handle_event w c (KEYDOWN K_x) = Ok c.
Proof.
  intros Hreach Hcv w pos button.
  destruct (reachable_invariants c Hreach) as (Hdrag & _ & _).
  assert (canvas_dragging c = false) as Hidle.
  { unfold drag_state_ok in Hdrag. destruct (canvas_dragging c); [|reflexivity].
    destruct Hdrag as ([cv Hcv'] & _). congruence. }
  assert (∀ mx my, get_canvas_cell_pos c mx my = Ok None) as Hcell.
  { intros mx my. unfold get_canvas_cell_pos. rewrite Hcv. reflexivity. }
  split; [|split; [|split]].
  - intros H4 H5. cbn [handle_event].
    destruct (Z.eqb_spec button 4); [contradiction|].
    destruct (Z.eqb_spec button 5); [contradiction|].
    destruct (button =? 1); [|reflexivity].
    destruct pos as [mx my]. unfold left_button_down.
    rewrite Hcv, Hcell. reflexivity.
  - cbn [handle_event]. rewrite Hidle. reflexivity.
  - cbn [handle_event]. rewrite Hidle, andb_false_r. reflexivity.
  - cbn [handle_event]. change (K_x =? K_o) with false.
    change (K_x =? K_a) with false. change (K_x =? K_s) with false.
    change (K_x =? K_z) with false.
    change ((K_x =? K_ESCAPE) || (K_x =? K_q)) with false.
    change ((K_1 <=? K_x) && (K_x <=? K_9)) with false.
    change (K_x =? K_x) with true. cbv iota.
    destruct (mouse_get_pos w) as [mx my]. unfold erase_under_mouse.
    rewrite Hcell. reflexivity.
Qed.

Lemma no_canvas_no_edit_witness :
  handle_event world_quiet (editor_of (session_add (solid 16 16 opaque_red)))
    (MOUSEBUTTONDOWN (15, 15) 1)
  = Ok (editor_of (session_add (solid 16 16 opaque_red))).
Proof.
  refine (proj1 (no_canvas_no_edit
                   (editor_of (session_add (solid 16 16 opaque_red)))
                   _ _ world_quiet (15, 15) 1) _ _).
  - apply (reachable_step Composer_init (world_add (solid 16 16 opaque_red))
             (KEYDOWN K_a) _ reachable_init).
    vm_compute. reflexivity.
  - vm_compute. reflexivity.
  - discriminate.
  - discriminate.
Defined.

(** X11. Only opening a base image changes the size of the canvas: after any
    other event the canvas is present exactly if it was before, with the
    same width and height. *)
Theorem canvas_size_fixed (w : World) (c c' : Composer) (ev : Event) :
  handle_event w c ev = Ok c' →
  ev ≠ KEYDOWN K_o →
  get_size <$> canvas_surface c' = get_size <$> canvas_surface c.
Proof.
  intros Hstep Hev. apply handle_event_effect in Hstep.
  assert (∀ f cv, get_size (map_pixels f cv) = get_size cv) as Hsize.
  { intros f cv. unfold get_size.
    rewrite get_width_map_pixels, get_height_map_pixels. reflexivity. }
  destruct Hstep as [ | | | | | | | | ? cv f Hcv | ? cv f ? ? ? Hcv | | ? cv f Hcv | |];
    try reflexivity.
  - cbn. rewrite Hcv. cbn. rewrite Hsize. reflexivity.
  - cbn. rewrite Hcv. cbn. rewrite Hsize. reflexivity.
  - cbn. rewrite Hcv. cbn. rewrite Hsize. reflexivity.
  - destruct (add_palette_sheet_fields c (ask_open_files w)) as (-> & _).
    reflexivity.
  - contradiction.
Qed.

Lemma canvas_size_fixed_witness :
  get_size
  <$> canvas_surface
        (editor_of
           (handle_event (world_mouse (20, 5))
              (editor_of (session_select (two_cells opaque_red opaque_blue)
                            (solid 16 16 half_red)))
              (KEYDOWN K_x)))
  = Some (32, 16).
Proof.
  rewrite (canvas_size_fixed (world_mouse (20, 5))
             (editor_of (session_select (two_cells opaque_red opaque_blue)
                           (solid 16 16 half_red)))
             _ (KEYDOWN K_x)).
  - vm_compute. reflexivity.
  - vm_compute. reflexivity.
  - discriminate.
Defined.

(** ** Hit testing *)

Lemma snap_snap (t x : Z) : 0 < t → snap t (snap t x) = snap t x.
Proof.
  intros Ht. unfold snap. rewrite Z.div_mul by lia. reflexivity.
Qed.

(** X1. [get_canvas_cell_pos] with a canvas and a positive tile size: it
    answers [None] exactly for a pointer off the canvas; for a pointer on
    the canvas it answers a cell origin whose coordinates are multiples of
    the tile size, which lies on the canvas, whose cell holds the pointer,
    and which is its own cell origin. *)
Theorem get_canvas_cell_pos_snaps
    (c : Composer) (cv : Surface) (mx my : Z) :
  0 < tile_size c →
  canvas_surface c = Some cv →
  (¬ on_surface cv mx my → get_canvas_cell_pos c mx my = Ok None)
  ∧ (on_surface cv mx my →
     ∃ tx ty,
       get_canvas_cell_pos c mx my = Ok (Some (tx, ty))
       ∧ (tile_size c | tx) ∧ (tile_size c | ty)
       ∧ in_cell (tile_size c) tx ty mx my
       ∧ on_surface cv tx ty
       ∧ get_canvas_cell_pos c tx ty = Ok (Some (tx, ty))).
Proof.
  intros Ht Hcv. split; [apply (get_canvas_cell_pos_off c cv mx my Hcv)|].
  intros Hon. exists (snap (tile_size c) mx), (snap (tile_size c) my).
  pose proof (snap_in_cell (tile_size c) mx Ht) as Hx.
  pose proof (snap_in_cell (tile_size c) my Ht) as Hy.
  assert (on_surface cv (snap (tile_size c) mx) (snap (tile_size c) my))
    as Hon'.
  { destruct Hon as [Hmx Hmy]. unfold on_surface.
    pose proof (snap_nonneg (tile_size c) mx Ht ltac:(lia)).
    pose proof (snap_nonneg (tile_size c) my Ht ltac:(lia)). lia. }
  split; [apply (get_canvas_cell_pos_on c cv mx my Ht Hcv Hon)|].
  split; [exists (mx / tile_size c); reflexivity|].
  split; [exists (my / tile_size c); reflexivity|].
  split; [split; assumption|]. split; [exact Hon'|].
  rewrite (get_canvas_cell_pos_on c cv _ _ Ht Hcv Hon').
  rewrite !snap_snap by exact Ht. reflexivity.
Qed.

Lemma get_canvas_cell_pos_snaps_witness :
  get_canvas_cell_pos
    (editor_of (session_open (two_cells opaque_red opaque_blue))) 32 5
  = Ok None
  ∧ ∃ tx ty,
      get_canvas_cell_pos
        (editor_of (session_open (two_cells opaque_red opaque_blue))) 31 15
      = Ok (Some (tx, ty))
      ∧ in_cell 16 tx ty 31 15.
Proof.
  destruct (get_canvas_cell_pos_snaps
              (editor_of (session_open (two_cells opaque_red opaque_blue)))
              (two_cells opaque_red opaque_blue) 32 5)
    as [Hoff _]; [reflexivity | vm_compute; reflexivity |].
  destruct (get_canvas_cell_pos_snaps
              (editor_of (session_open (two_cells opaque_red opaque_blue)))
              (two_cells opaque_red opaque_blue) 31 15)
    as [_ Hon]; [reflexivity | vm_compute; reflexivity |].
  split.
  - apply Hoff. vm_compute. intros [[_ H] _]. discriminate H.
  - destruct Hon as (tx & ty & Hcell & _ & _ & Hin & _).
    + vm_compute. repeat split; (reflexivity || discriminate).
    + exists tx, ty. split; [exact Hcell | exact Hin].
Defined.

(** ** Empty and non-empty surfaces *)

Lemma foldr_max_ge (x0 : Z) (l : list Z) : x0 ≤ foldr Z.max x0 l.
Proof. induction l as [|a l IH]; simpl; lia. Qed.

Lemma foldr_min_le (x0 : Z) (l : list Z) : foldr Z.min x0 l ≤ x0.
Proof. induction l as [|a l IH]; simpl; lia. Qed.

Lemma is_surface_nonempty_visible (s : Surface) :
  is_surface_nonempty s = true ↔ visible_pixels s ≠ [].
Proof.
  unfold is_surface_nonempty, get_bounding_rect.
  destruct (visible_pixels s) as [|[x0 y0] rest].
  - simpl. split; [discriminate | contradiction].
  - cbn [rect_w rect_h]. split; [discriminate|]. intros _.
    pose proof (foldr_max_ge x0 (fst <$> rest)).
    pose proof (foldr_min_le x0 (fst <$> rest)).
    pose proof (foldr_max_ge y0 (snd <$> rest)).
    pose proof (foldr_min_le y0 (snd <$> rest)).
    apply andb_true_iff. split; apply Z.gtb_lt; lia.
Qed.

Lemma elem_of_visible_pixels (s : Surface) (x y : Z) :
  (x, y) ∈ visible_pixels s ↔
  ∃ p, pixel_at s x y = Some p ∧ 1 ≤ alpha p.
Proof.
  unfold visible_pixels. rewrite list_elem_of_In, in_concat.
  split.
  - intros (l & Hl & Hxy). apply list_elem_of_In in Hl, Hxy.
    apply elem_of_lookup_imap in Hl as (j & row & -> & Hrow).
    apply list_elem_of_omap in Hxy as (o & Ho & Hid).
    apply elem_of_lookup_imap in Ho as (i & p & -> & Hp).
    cbn in Hid. destruct (Z.leb_spec 1 (alpha p)); [|discriminate Hid].
    injection Hid as <- <-. exists p. split; [|assumption].
    rewrite (pixel_at_of_nat s i j row Hrow). exact Hp.
  - intros (p & Hp & Ha).
    apply pixel_at_Some_nat in Hp as (Hx & Hy & row & Hrow & Hp).
    eexists. split.
    + apply list_elem_of_In. apply (elem_of_lookup_imap_2 _ _ _ _ Hrow).
    + apply list_elem_of_In. apply list_elem_of_omap.
      eexists. split; [apply (elem_of_lookup_imap_2 _ _ _ _ Hp)|].
      cbn. destruct (Z.leb_spec 1 (alpha p)); [|lia].
      rewrite !Z2Nat.id by lia. reflexivity.
Qed.

(** X2. [is_surface_nonempty] does what its docstring says: it is [True]
    exactly when the surface has a pixel that is not fully transparent
    (alpha at least 1). *)
Theorem is_surface_nonempty_iff (s : Surface) :
  is_surface_nonempty s = true ↔
  ∃ x y p, pixel_at s x y = Some p ∧ 1 ≤ alpha p.
Proof.
  rewrite is_surface_nonempty_visible. split.
  - intros Hne. destruct (visible_pixels s) as [|[x y] rest] eqn:Hvis;
      [contradiction|].
    assert ((x, y) ∈ visible_pixels s) as Hin by (rewrite Hvis; left).
    apply elem_of_visible_pixels in Hin as (p & Hp & Ha). eauto.
  - intros (x & y & p & Hp & Ha) Hnil.
    assert ((x, y) ∈ visible_pixels s) as Hin
      by (apply elem_of_visible_pixels; eauto).
    rewrite Hnil in Hin. inversion Hin.
Qed.

Lemma is_surface_nonempty_false (s : Surface) :
  (∀ x y p, pixel_at s x y = Some p → alpha p < 1) →
  is_surface_nonempty s = false.
Proof.
  intros Hall. destruct (is_surface_nonempty s) eqn:Hne; [|reflexivity].
  apply is_surface_nonempty_visible in Hne. exfalso.
  destruct (visible_pixels s) as [|[x y] rest] eqn:Hvis; [contradiction|].
  assert ((x, y) ∈ visible_pixels s) as Hin by (rewrite Hvis; left).
  apply elem_of_visible_pixels in Hin as (p & Hp & Ha).
  specialize (Hall x y p Hp). lia.
Qed.

Lemma is_surface_nonempty_false_inv (s : Surface) (x y : Z) (p : Color) :
  is_surface_nonempty s = false → pixel_at s x y = Some p → alpha p < 1.
Proof.
  intros Hempty Hp. destruct (Z.lt_ge_cases (alpha p) 1) as [|Ha]; [assumption|].
  assert (is_surface_nonempty s = true) as Hne.
  { apply is_surface_nonempty_visible. intros Hnil.
    assert ((x, y) ∈ visible_pixels s) as Hin
      by (apply elem_of_visible_pixels; eauto).
    rewrite Hnil in Hin. inversion Hin. }
  congruence.
Qed.

Lemma is_surface_nonempty_iff_witness :
  is_surface_nonempty (two_cells transparent half_red) = true.
Proof.
  apply (proj2 (is_surface_nonempty_iff (two_cells transparent half_red))).
  exists 16, 0, half_red. split; [vm_compute; reflexivity|].
  vm_compute. discriminate.
Defined.

(** ** Clicking an empty cell *)

Lemma empty_cell_test (c : Composer) (cv : Surface) (tx ty : Z) :
  0 < tile_size c → canvas_surface c = Some cv →
  (tile ← get_tile_surface_from_canvas c tx ty; Ok (is_surface_nonempty tile))
  = Ok false →
  is_surface_nonempty (cell_tile cv (tile_size c) tx ty) = false.
Proof.
  intros Ht Hcv. rewrite (get_tile_surface_from_canvas_Ok c cv _ _ Ht Hcv).
  simpl. congruence.
Qed.

(** In a cell that tests empty every pixel has alpha 0. *)
Lemma empty_cell_alpha (cv : Surface) (t tx ty x y : Z) (d : Color) :
  0 < t → surface_colors_ok cv →
  is_surface_nonempty (cell_tile cv t tx ty) = false →
  in_cell t tx ty x y → pixel_at cv x y = Some d → alpha d = 0.
Proof.
  intros Ht Hok Hempty [Hx Hy] Hd.
  assert (pixel_at (cell_tile cv t tx ty) (x - tx) (y - ty) = Some d) as Hcell.
  { rewrite pixel_at_cell_tile by exact Ht.
    destruct (Z.leb_spec 0 (x - tx)); [|lia].
    destruct (Z.ltb_spec (x - tx) t); [|lia].
    destruct (Z.leb_spec 0 (y - ty)); [|lia].
    destruct (Z.ltb_spec (y - ty) t); [|lia].
    cbn [andb]. replace (x - tx + tx) with x by lia.
    replace (y - ty + ty) with y by lia. rewrite Hd. reflexivity. }
  pose proof (is_surface_nonempty_false_inv _ _ _ _ Hempty Hcell) as Hlt.
  destruct (surface_colors_ok_pixel cv x y d Hok Hd) as (_ & _ & _ & Ha).
  unfold channel_ok in Ha. lia.
Qed.

(** X3. A left click on a cell of the canvas that tests empty: with no tile
    selected nothing changes; with a tile selected no drag starts and the
    tile is written exactly, alpha included: every canvas pixel of the cell
    under a tile pixel becomes that tile pixel, and every pixel the tile
    does not reach keeps its value. *)
Theorem click_on_empty_cell_places_tile
    (c : Composer) (cv : Surface) (mx my : Z) :
  0 < tile_size c →
  canvas_surface c = Some cv →
  surface_colors_ok cv →
  on_surface cv mx my →
  (tile ← get_tile_surface_from_canvas c
            (snap (tile_size c) mx) (snap (tile_size c) my);
   Ok (is_surface_nonempty tile)) = Ok false →
  match selected_tile c with
  | None => left_button_down c (mx, my) = Ok c
  | Some tile =>
      ∃ cv',
        left_button_down c (mx, my) = Ok (set_canvas c cv')
        ∧ ∀ x y d,
            pixel_at cv x y = Some d →
            match pixel_at tile (x - snap (tile_size c) mx)
                                (y - snap (tile_size c) my) with
            | Some s =>
                in_cell (tile_size c)
                  (snap (tile_size c) mx) (snap (tile_size c) my) x y →
                pixel_at cv' x y = Some s
            | None => pixel_at cv' x y = Some d
            end
  end.
Proof.
  intros Ht Hcv Hok Hon Hempty.
  apply (empty_cell_test c cv _ _ Ht Hcv) in Hempty.
  assert (left_button_down c (mx, my) = place_tile_on_canvas c mx my) as ->.
  { unfold left_button_down. rewrite Hcv.
    destruct Hon as [Hx Hy]. destruct (Z.gtb_spec mx (get_width cv)); [lia|].
    rewrite (get_canvas_cell_pos_on c cv mx my Ht Hcv) by (split; assumption).
    cbn [mbind result_bind].
    rewrite (get_tile_surface_from_canvas_Ok c cv _ _ Ht Hcv).
    cbn [mbind result_bind]. rewrite Hempty. reflexivity. }
  destruct (selected_tile c) as [tile|] eqn:Hsel.
  - pose proof (snap_in_cell (tile_size c) mx Ht) as Hsx.
    pose proof (snap_in_cell (tile_size c) my Ht) as Hsy.
    destruct Hon as [Hx Hy].
    pose proof (snap_nonneg (tile_size c) mx Ht ltac:(lia)).
    pose proof (snap_nonneg (tile_size c) my Ht ltac:(lia)).
    eexists. split.
    + apply (place_tile_on_canvas_Ok c cv tile mx my Ht Hcv Hsel); lia.
    + intros x y d Hd. rewrite pixel_at_blit, Hd. cbn.
      destruct (pixel_at tile _ _) as [s|]; [|reflexivity].
      intros Hin.
      rewrite ALPHA_BLEND_over_transparent; [reflexivity|].
      exact (empty_cell_alpha cv _ _ _ x y d Ht Hok Hempty Hin Hd).
  - unfold place_tile_on_canvas. rewrite Hcv, Hsel. reflexivity.
Qed.

Lemma surface_colors_ok_two_cells (p q : Color) :
  color_ok p → color_ok q → surface_colors_ok (two_cells p q).
Proof.
  intros Hp Hq. unfold surface_colors_ok, two_cells. cbn [surf_rows].
  apply Forall_replicate, Forall_app.
  split; apply Forall_replicate; assumption.
Qed.

Lemma color_ok_transparent : color_ok transparent.
Proof. unfold color_ok, channel_ok; simpl; lia. Qed.

Lemma click_on_empty_cell_places_tile_witness :
  ∃ cv',
    left_button_down
      (editor_of (session_select (two_cells opaque_blue transparent)
                    (solid 16 16 half_red))) (20, 5)
    = Ok (set_canvas
            (editor_of (session_select (two_cells opaque_blue transparent)
                          (solid 16 16 half_red))) cv')
    ∧ pixel_at cv' 20 5 = Some half_red.
Proof.
  pose proof (click_on_empty_cell_places_tile
                (editor_of (session_select (two_cells opaque_blue transparent)
                              (solid 16 16 half_red)))
                (two_cells opaque_blue transparent) 20 5) as Hclick.
  change (selected_tile
            (editor_of (session_select (two_cells opaque_blue transparent)
                          (solid 16 16 half_red))))
    with (Some (solid 16 16 half_red)) in Hclick.
  destruct Hclick as (cv' & Hdown & Hpx).
  - reflexivity.
  - vm_compute. reflexivity.
  - apply surface_colors_ok_two_cells;
      [apply color_ok_opaque_blue | apply color_ok_transparent].
  - vm_compute. repeat split; (reflexivity || discriminate).
  - vm_compute. reflexivity.
  - exists cv'. split; [exact Hdown|].
    specialize (Hpx 20 5 transparent eq_refl).
    change (pixel_at (solid 16 16 half_red)
              (20 - snap (tile_size
                            (editor_of
                               (session_select
                                  (two_cells opaque_blue transparent)
                                  (solid 16 16 half_red)))) 20)
              (5 - snap (tile_size
                           (editor_of
                              (session_select
                                 (two_cells opaque_blue transparent)
                                 (solid 16 16 half_red)))) 5))
      with (Some half_red) in Hpx.
    apply Hpx. vm_compute. repeat split; (reflexivity || discriminate).
Defined.

(** X13. Erasing empties the cell: after the erase key over the canvas, a
    pointer anywhere in the erased cell finds a cell that tests empty, so
    the next click there places a tile instead of starting a drag. *)
Theorem erase_leaves_cell_empty
    (c : Composer) (cv : Surface) (mx my mx' my' : Z) :
  0 < tile_size c →
  canvas_surface c = Some cv →
  on_surface cv mx my →
  in_cell (tile_size c) (snap (tile_size c) mx) (snap (tile_size c) my)
    mx' my' →
  ∃ c',
    erase_under_mouse c (mx, my) = Ok c'
    ∧ (tile ← get_tile_surface_from_canvas c'
                (snap (tile_size c') mx') (snap (tile_size c') my');
       Ok (is_surface_nonempty tile)) = Ok false.
Proof.
  intros Ht Hcv Hon [Hx' Hy'].
  rewrite (erase_under_mouse_on c cv mx my Ht Hcv Hon).
  eexists. split; [reflexivity|].
  erewrite get_tile_surface_from_canvas_Ok; [|exact Ht|reflexivity].
  cbn [mbind result_bind set_canvas tile_size]. f_equal.
  rewrite (snap_unique (tile_size c) mx mx' Ht Hx').
  rewrite (snap_unique (tile_size c) my my' Ht Hy').
  apply is_surface_nonempty_false. intros u v p.
  rewrite pixel_at_cell_tile by exact Ht.
  destruct ((0 <=? u) && (u <? tile_size c) && (0 <=? v) && (v <? tile_size c))
    eqn:Hin; [|discriminate].
  rewrite !andb_true_iff, !Z.leb_le, !Z.ltb_lt in Hin.
  rewrite pixel_at_fill.
  rewrite (proj2 (collidepoint_spec _ _ _ _ _)) by (unfold in_cell; lia).
  destruct (pixel_at cv _ _); cbn; intros [= <-]; cbn; lia.
Qed.

Lemma erase_leaves_cell_empty_witness :
  ∃ c',
    erase_under_mouse
      (editor_of (session_open (two_cells opaque_red opaque_blue))) (20, 5)
    = Ok c'
    ∧ (tile ← get_tile_surface_from_canvas c'
                (snap (tile_size c') 31) (snap (tile_size c') 15);
       Ok (is_surface_nonempty tile)) = Ok false.
Proof.
  apply (erase_leaves_cell_empty
           (editor_of (session_open (two_cells opaque_red opaque_blue)))
           (two_cells opaque_red opaque_blue) 20 5 31 15).
  - reflexivity.
  - vm_compute. reflexivity.
  - vm_compute. repeat split; (reflexivity || discriminate).
  - vm_compute. repeat split; (reflexivity || discriminate).
Defined.

(** ** The palette *)

Lemma palette_tiles_bind (c : Composer) :
  palette_tiles c = palette_sheets c ≫= ts_tiles.
Proof.
  unfold palette_tiles.
  assert (∀ l acc,
            foldl (λ tiles sheet, tiles ++ ts_tiles sheet) acc l
            = acc ++ (l ≫= ts_tiles)) as Hfold.
  { induction l as [|sheet l IH]; intros acc; cbn.
    - rewrite app_nil_r. reflexivity.
    - rewrite IH, app_assoc. reflexivity. }
  apply (Hfold (palette_sheets c) []).
Qed.

(** X8. [add_palette_sheet] only appends: the sheets afterwards are the old
    sheets followed by one sheet per file that loaded, in the order chosen
    (files that fail add nothing); the flattened palette is the old one
    followed by the new sheets' tiles, so every palette entry keeps its
    index; the selected tile and the canvas are not touched. *)
Theorem add_palette_sheet_appends
    (c : Composer) (answers : list (result Surface)) :
  let c' := add_palette_sheet c answers in
  let new := omap (λ loaded,
                     match TileSheet_init loaded (tile_size c) with
                     | Ok ts => Some ts
                     | Raise _ => None
                     end) answers in
  palette_sheets c' = palette_sheets c ++ new
  ∧ palette_tiles c' = palette_tiles c ++ (new ≫= ts_tiles)
  ∧ (∀ (i : nat) tile,
       palette_tiles c !! i = Some tile → palette_tiles c' !! i = Some tile)
  ∧ selected_tile c' = selected_tile c
  ∧ canvas_surface c' = canvas_surface c.
Proof.
  intros c' new.
  pose proof (add_palette_sheet_sheets c answers) as Hsheets.
  fold c' new in Hsheets.
  assert (palette_tiles c' = palette_tiles c ++ (new ≫= ts_tiles)) as Htiles.
  { rewrite !palette_tiles_bind, Hsheets. apply bind_app. }
  destruct (add_palette_sheet_fields c answers) as (Hcv & _ & Hsel & _).
  split; [exact Hsheets|]. split; [exact Htiles|]. split; [|split; assumption].
  intros i tile Hi. rewrite Htiles. apply lookup_app_l_Some. exact Hi.
Qed.

(** ** Thumbnails and clicks *)

Lemma palette_tiles_sheets_nonempty (c : Composer) :
  palette_tiles c ≠ [] → palette_sheets c ≠ [].
Proof.
  rewrite palette_tiles_bind. intros Hne Hnil. rewrite Hnil in Hne.
  apply Hne. reflexivity.
Qed.

(** The thumbnails drawn, by index in the flattened palette. *)
Lemma elem_of_draw_palette_blits (c : Composer) (tile : Surface) (pos : Z * Z) :
  (tile, pos) ∈ draw_palette_blits c ↔
  ∃ i : nat,
    palette_tiles c !! i = Some tile
    ∧ palette_scroll c ≤ Z.of_nat i / PALETTE_COLS
    ∧ pos = (match canvas_surface c with
             | Some cv => get_width cv
             | None => 0
             end + 10 + Z.of_nat i `mod` PALETTE_COLS * PALETTE_THUMB,
             10 + (Z.of_nat i / PALETTE_COLS - palette_scroll c)
                  * PALETTE_THUMB).
Proof.
  unfold draw_palette_blits.
  assert (match canvas_surface c with
          | Some cv => get_size cv
          | None => (0, 0)
          end
          = (match canvas_surface c with
             | Some cv => get_width cv
             | None => 0
             end,
             match canvas_surface c with
             | Some cv => get_height cv
             | None => 0
             end)) as -> by (destruct (canvas_surface c); reflexivity).
  destruct (palette_sheets c) as [|s0 sheets] eqn:Hsheets.
  - assert (palette_tiles c = []) as Hnil
      by (rewrite palette_tiles_bind, Hsheets; reflexivity).
    rewrite Hnil. split; [intros Hin; inversion Hin|].
    intros (i & Hi & _). rewrite lookup_nil in Hi. discriminate Hi.
  - rewrite list_elem_of_omap. split.
    + intros (o & Ho & Hid).
      apply elem_of_lookup_imap in Ho as (i & t & -> & Hi).
      cbn in Hid.
      destruct (Z.ltb_spec (Z.of_nat i / PALETTE_COLS - palette_scroll c) 0);
        [discriminate Hid|].
      injection Hid as <- <-. exists i. split; [exact Hi|]. split; [lia|].
      reflexivity.
    + intros (i & Hi & Hrow & ->).
      eexists. split; [apply (elem_of_lookup_imap_2 _ _ _ _ Hi)|].
      cbn.
      destruct (Z.ltb_spec (Z.of_nat i / PALETTE_COLS - palette_scroll c) 0);
        [lia|].
      reflexivity.
Qed.

(** X9. What is drawn is what a click selects: with a canvas open, a left
    click anywhere inside the 32 x 32 box of a thumbnail that [draw_palette]
    blits selects exactly the tile that thumbnail shows, and changes nothing
    else. *)
Theorem click_on_thumbnail_selects_its_tile
    (c : Composer) (cv : Surface) (tile : Surface) (tx ty mx my : Z) :
  canvas_surface c = Some cv →
  (tile, (tx, ty)) ∈ draw_palette_blits c →
  tx ≤ mx < tx + PALETTE_THUMB →
  ty ≤ my < ty + PALETTE_THUMB →
  left_button_down c (mx, my) = Ok (set_selected_tile c tile).
Proof.
  intros Hcv Hdrawn Hmx Hmy.
  apply elem_of_draw_palette_blits in Hdrawn as (i & Hi & Hrow & Hpos).
  rewrite Hcv in Hpos. injection Hpos as -> ->.
  unfold PALETTE_THUMB, PALETTE_COLS in *.
  pose proof (Z.mod_pos_bound (Z.of_nat i) 8 ltac:(lia)) as Hmod.
  pose proof (Z.div_mod (Z.of_nat i) 8 ltac:(lia)) as Hdiv.
  unfold left_button_down. rewrite Hcv.
  destruct (Z.gtb_spec mx (get_width cv)); [|lia].
  f_equal. unfold select_tile_from_palette_coords. rewrite Hcv.
  cbn [get_size].
  destruct (Z.ltb_spec (mx - get_width cv - 10) 0); [lia|].
  destruct (Z.ltb_spec (my - 10) 0); [lia|]. cbn [orb].
  unfold PALETTE_THUMB, PALETTE_COLS.
  assert ((mx - get_width cv - 10) / 32 = Z.of_nat i `mod` 8) as ->.
  { symmetry.
    apply (Z.div_unique _ 32 _ (mx - get_width cv - 10
                                - Z.of_nat i `mod` 8 * 32)); lia. }
  assert ((my - 10) / 32 = Z.of_nat i / 8 - palette_scroll c) as ->.
  { symmetry.
    apply (Z.div_unique _ 32 _ (my - 10
                                - (Z.of_nat i / 8 - palette_scroll c) * 32));
      lia. }
  replace ((Z.of_nat i / 8 - palette_scroll c + palette_scroll c) * 8
           + Z.of_nat i `mod` 8) with (Z.of_nat i) by lia.
  pose proof (lookup_lt_Some _ _ _ Hi) as Hlen.
  destruct (Z.leb_spec 0 (Z.of_nat i)); [|lia].
  destruct (Z.ltb_spec (Z.of_nat i) (Z.of_nat (length (palette_tiles c))));
    [|lia].
  cbn [andb]. rewrite Nat2Z.id, Hi. reflexivity.
Qed.

Lemma click_on_thumbnail_selects_its_tile_witness :
  left_button_down
    (editor_of (session_select (solid 16 16 transparent)
                  (two_cells opaque_red opaque_blue))) (70, 20)
  = Ok (set_selected_tile
          (editor_of (session_select (solid 16 16 transparent)
                        (two_cells opaque_red opaque_blue)))
          (solid 16 16 opaque_blue)).
Proof.
  apply (click_on_thumbnail_selects_its_tile
           (editor_of (session_select (solid 16 16 transparent)
                         (two_cells opaque_red opaque_blue)))
           (solid 16 16 transparent) (solid 16 16 opaque_blue) 58 10 70 20).
  - vm_compute. reflexivity.
  - vm_compute. right. left.
  - vm_compute. split; (reflexivity || discriminate).
  - vm_compute. split; (reflexivity || discriminate).
Defined.

(** ** Slicing covers the image *)

(** X12. Slicing loses nothing inside the grid: for a tile size [t > 0],
    every pixel [(x, y)] of the image with [x < cols * t] and [y < rows * t]
    is found again in tile number [(y // t) * cols + x // t], at offset
    [(x mod t, y mod t)]. *)
Theorem slice_tiles_cover_image
    (img : Surface) (t x y : Z) (p : Color) :
  0 < t →
  pixel_at img x y = Some p →
  x < Z.max 1 (get_width img / t) * t →
  y < Z.max 1 (get_height img / t) * t →
  ∃ sheet tile,
    TileSheet_init (Ok img) t = Ok sheet
    ∧ ts_tiles sheet !! Z.to_nat (y / t * ts_cols sheet + x / t) = Some tile
    ∧ pixel_at tile (x `mod` t) (y `mod` t) = Some p.
Proof.
  intros Ht Hp Hx Hy.
  pose proof (proj1 (pixel_at_Some_nat img x y p) Hp) as (Hx0 & Hy0 & _).
  pose proof (Z.div_mod x t ltac:(lia)) as Hdx.
  pose proof (Z.div_mod y t ltac:(lia)) as Hdy.
  pose proof (Z.mod_pos_bound x t Ht) as Hmx.
  pose proof (Z.mod_pos_bound y t Ht) as Hmy.
  pose proof (Z.div_pos x t Hx0 Ht) as Hqx.
  pose proof (Z.div_pos y t Hy0 Ht) as Hqy.
  assert (x / t < Z.max 1 (get_width img / t)) as Hcol
    by (apply Z.div_lt_upper_bound; lia).
  assert (y / t < Z.max 1 (get_height img / t)) as Hrow
    by (apply Z.div_lt_upper_bound; lia).
  eexists. exists (cell_tile img t (x / t * t) (y / t * t)).
  split; [apply TileSheet_init_Ok; exact Ht|]. cbn [ts_tiles ts_cols].
  split.
  - apply (grid_lookup (λ r c, cell_tile img t (c * t) (r * t))); lia.
  - rewrite pixel_at_cell_tile by exact Ht.
    destruct (Z.leb_spec 0 (x `mod` t)); [|lia].
    destruct (Z.ltb_spec (x `mod` t) t); [|lia].
    destruct (Z.leb_spec 0 (y `mod` t)); [|lia].
    destruct (Z.ltb_spec (y `mod` t) t); [|lia].
    cbn [andb].
    replace (x `mod` t + x / t * t) with x by lia.
    replace (y `mod` t + y / t * t) with y by lia.
    rewrite Hp. reflexivity.
Qed.

Lemma slice_tiles_cover_image_witness :
  ∃ sheet tile,
    TileSheet_init (Ok (two_cells opaque_red opaque_blue)) 16 = Ok sheet
    ∧ ts_tiles sheet !! Z.to_nat (7 / 16 * ts_cols sheet + 21 / 16) = Some tile
    ∧ pixel_at tile (21 `mod` 16) (7 `mod` 16) = Some opaque_blue.
Proof.
  apply (slice_tiles_cover_image (two_cells opaque_red opaque_blue) 16 21 7
           opaque_blue).
  - reflexivity.
  - vm_compute. reflexivity.
  - vm_compute. reflexivity.
  - vm_compute. reflexivity.
Defined.

(** X14. The palette hit test does not bound the column: with a canvas open,
    a position eight or more thumbnail widths right of the palette's left
    edge selects exactly what the position 256 pixels to its left and one
    thumbnail row lower selects, so clicks right of the eighth column pick
    tiles of later rows. *)
Theorem palette_columns_wrap (c : Composer) (cv : Surface) (mx my : Z) :
  canvas_surface c = Some cv →
  PALETTE_COLS * PALETTE_THUMB ≤ mx - get_width cv - 10 →
  0 ≤ my - 10 →
  select_tile_from_palette_coords c mx my
  = select_tile_from_palette_coords c
      (mx - PALETTE_COLS * PALETTE_THUMB) (my + PALETTE_THUMB).
Proof.
  unfold PALETTE_COLS, PALETTE_THUMB. intros Hcv Hx Hy.
  unfold select_tile_from_palette_coords. rewrite Hcv. cbn [get_size].
  destruct (Z.ltb_spec (mx - get_width cv - 10) 0); [lia|].
  destruct (Z.ltb_spec (my - 10) 0); [lia|].
  destruct (Z.ltb_spec (mx - 8 * 32 - get_width cv - 10) 0); [lia|].
  destruct (Z.ltb_spec (my + 32 - 10) 0); [lia|]. cbn [orb].
  unfold PALETTE_COLS, PALETTE_THUMB.
  replace (mx - 8 * 32 - get_width cv - 10)
    with (mx - get_width cv - 10 + (-8) * 32) by lia.
  replace (my + 32 - 10) with (my - 10 + 1 * 32) by lia.
  rewrite !Z.div_add by lia.
  replace (((my - 10) / 32 + 1 + palette_scroll c) * 8
           + ((mx - get_width cv - 10) / 32 + -8))
    with (((my - 10) / 32 + palette_scroll c) * 8
          + (mx - get_width cv - 10) / 32) by lia.
  reflexivity.
Qed.

Lemma palette_columns_wrap_witness :
  select_tile_from_palette_coords
    (editor_of (session_select (solid 16 16 transparent)
                  (solid 144 16 opaque_red))) 300 20
  = select_tile_from_palette_coords
      (editor_of (session_select (solid 16 16 transparent)
                    (solid 144 16 opaque_red))) 44 52
  ∧ (select_tile_from_palette_coords
       (editor_of (session_select (solid 16 16 transparent)
                     (solid 144 16 opaque_red))) 300 20).2
    = true.
Proof.
  split; [|vm_compute; reflexivity].
  apply (palette_columns_wrap
           (editor_of (session_select (solid 16 16 transparent)
                         (solid 144 16 opaque_red)))
           (solid 16 16 transparent) 300 20).
  - vm_compute. reflexivity.
  - vm_compute. discriminate.
  - vm_compute. discriminate.
Defined.

(** X15. A lifted tile is in the hand and not on the canvas: after a left
    press on a non-empty cell the editor is dragging, holds the cell's
    former content, remembers the cell as origin, and the cell itself now
    tests empty. *)
Theorem lift_empties_origin_cell (c : Composer) (cv : Surface) (mx my : Z) :
  0 < tile_size c →
  canvas_surface c = Some cv →
  on_surface cv mx my →
  (tile ← get_tile_surface_from_canvas c
            (snap (tile_size c) mx) (snap (tile_size c) my);
   Ok (is_surface_nonempty tile)) = Ok true →
  ∃ c' held,
    left_button_down c (mx, my) = Ok c'
    ∧ canvas_dragging c' = true
    ∧ canvas_selected_orig c'
      = Some (snap (tile_size c) mx, snap (tile_size c) my)
    ∧ get_tile_surface_from_canvas c
        (snap (tile_size c) mx) (snap (tile_size c) my) = Ok held
    ∧ canvas_selected_tile c' = Some held
    ∧ (tile ← get_tile_surface_from_canvas c'
                (snap (tile_size c) mx) (snap (tile_size c) my);
       Ok (is_surface_nonempty tile)) = Ok false.
Proof.
  intros Ht Hcv Hon Hne.
  apply (nonempty_cell_test c cv _ _ Ht Hcv) in Hne.
  rewrite (left_button_down_lifts c cv mx my Ht Hcv Hon Hne).
  eexists _, _. split; [reflexivity|].
  cbn [set_canvas set_drag canvas_dragging canvas_selected_orig
       canvas_selected_tile].
  split; [reflexivity|]. split; [reflexivity|].
  split; [apply (get_tile_surface_from_canvas_Ok c cv _ _ Ht Hcv)|].
  split; [reflexivity|].
  erewrite get_tile_surface_from_canvas_Ok; [|exact Ht|reflexivity].
  cbn [mbind result_bind set_canvas set_drag tile_size]. f_equal.
  apply is_surface_nonempty_false. intros u v p.
  rewrite pixel_at_cell_tile by exact Ht.
  destruct ((0 <=? u) && (u <? tile_size c) && (0 <=? v) && (v <? tile_size c))
    eqn:Hin; [|discriminate].
  rewrite !andb_true_iff, !Z.leb_le, !Z.ltb_lt in Hin.
  rewrite pixel_at_fill.
  rewrite (proj2 (collidepoint_spec _ _ _ _ _)) by (unfold in_cell; lia).
  destruct (pixel_at cv _ _); cbn; intros [= <-]; cbn; lia.
Qed.

Lemma lift_empties_origin_cell_witness :
  ∃ c',
    left_button_down
      (editor_of (session_open (two_cells opaque_red opaque_blue))) (20, 5)
    = Ok c'
    ∧ canvas_dragging c' = true
    ∧ canvas_selected_orig c' = Some (16, 0).
Proof.
  destruct (lift_empties_origin_cell
              (editor_of (session_open (two_cells opaque_red opaque_blue)))
              (two_cells opaque_red opaque_blue) 20 5)
    as (c' & held & Hdown & Hdrag & Horig & _).
  - reflexivity.
  - vm_compute. reflexivity.
  - vm_compute. repeat split; (reflexivity || discriminate).
  - vm_compute. reflexivity.
  - exists c'. split; [exact Hdown|]. split; [exact Hdrag|]. exact Horig.
Defined.

Lemma add_palette_sheet_appends_witness :
  length
    (palette_sheets
       (add_palette_sheet
          (editor_of (session_select (solid 16 16 transparent)
                        (two_cells opaque_red opaque_blue)))
          [Raise pygame_error; Ok (solid 16 16 half_red)]))
  = 2%nat
  ∧ palette_tiles
      (add_palette_sheet
         (editor_of (session_select (solid 16 16 transparent)
                       (two_cells opaque_red opaque_blue)))
         [Raise pygame_error; Ok (solid 16 16 half_red)])
      !! 1%nat
    = Some (solid 16 16 opaque_blue).
Proof.
  destruct (add_palette_sheet_appends
              (editor_of (session_select (solid 16 16 transparent)
                            (two_cells opaque_red opaque_blue)))
              [Raise pygame_error; Ok (solid 16 16 half_red)])
    as (Hsheets & _ & Hstable & _).
  split.
  - rewrite Hsheets. vm_compute. reflexivity.
  - apply Hstable. vm_compute. reflexivity.
Defined.
